(** * GreenGuard voice agent: session, playback scheduling and tool dispatch

    A shallow embedding of [src/App.tsx] (the [App] component: its React state,
    its refs and the handlers [handleDisconnect], [handleConnect],
    [toggleConnection] and the live-session callbacks [onopen], [onmessage],
    [onclose], [onerror]) together with the properties of the session
    lifecycle, of the playback cursor and of the tool-call protocol.

    Conventions of the embedding
    - React state and refs are the fields of one record, [App]; every handler
      is a function from [App] to [App] (or to an [Outcome] when it can throw
      or suspend at an [await]).
    - Browser and SDK objects (audio contexts, gain nodes, buffer sources,
      media streams, the live session) are handles; every call made on them is
      appended, in program order, to the [trace] field.
    - Times ([AudioContext.currentTime], [AudioBuffer.duration], the cursor
      [nextStartTimeRef]) are JavaScript numbers in seconds, that is binary64
      floating-point numbers; they are taken as exact rationals [Q], so the
      rounding of [+] is not modelled. Statements about playback times are
      therefore written with the very [max] and [+] expressions the code
      evaluates, in the order in which it evaluates them, or as inequalities;
      none of them relies on regrouping a sum.
    - An [await] splits a handler in two: the part up to the [await] and the
      part from the point where the awaited promise settles. Anything can run
      in between; the reactor ([step], [run]) has the interleavings.
    - [fc.args] is a JavaScript object used as a map: a [gmap string string]. *)

From Stdlib Require Import QArith Qminmax Lqa.
From stdpp Require Import gmap strings list.

Open Scope string_scope.
Open Scope list_scope.

(** ** Data model *)

(** [src/types.ts], [enum ConnectionState]. *)
Inductive ConnectionState := DISCONNECTED | CONNECTING | CONNECTED | ERROR.

#[global] Instance ConnectionState_eq_dec : EqDecision ConnectionState.
Proof. solve_decision. Defined.

(** Identity of a browser or SDK object. *)
Definition handle := nat.

(** [FunctionCall] of the SDK: [id], [name] and the optional [args] object
    (the source reads it through [fc.args as any]). *)
Record FunctionCall := mkFunctionCall {
  fc_id : string;
  fc_name : string;
  fc_args : option (gmap string string)
}.

(** The parts of a [LiveServerMessage] that [onmessage] reads:
    [serverContent?.modelTurn?.parts[0]?.inlineData?.data],
    [serverContent?.interrupted] and [toolCall?.functionCalls]. Messages are
    taken as the SDK types them on arrival: a [modelTurn] has its [parts]
    array and a [toolCall] its [functionCalls] array, so that reading the
    three values does not throw. *)
Record LiveServerMessage := mkMessage {
  inlineData : option string;
  interrupted : bool;
  toolCall : option (list FunctionCall)
}.

(** Calls that leave the component, in the order they are made.
    [SourceBuffer src data] is [src.buffer = audioBuffer] for the buffer
    decoded from [data]. *)
Inductive Effect :=
| Alert (msg : string)
| NewGoogleGenAI
| NewAudioContext (ctx : handle) (sampleRate : Z)
| CloseAudioContext (ctx : handle)
| CreateGain (ctx node : handle)
| GetUserMedia
| LiveConnect (session : handle)
| StartCapture (ctx : handle)
| CreateBufferSource (ctx src node : handle)
| SourceBuffer (src : handle) (data : string)
| SourceStart (src : handle) (when : Q)
| SourceStop (src : handle)
| SendToolResponse (id name result : string).

(** React state ([useState]) and refs ([useRef]) of [App], the allocation
    counter for fresh handles and the trace of outgoing calls. *)
Record App := mkApp {
  connectionState : ConnectionState;
  isSpeaking : bool;
  lastLog : string;
  bookedVisits : list (gmap string string);
  sessionRef : option handle;
  inputAudioContextRef : option handle;
  outputAudioContextRef : option handle;
  outputNodeRef : option handle;
  nextStartTimeRef : Q;
  sourcesRef : list handle;
  fresh : handle;
  trace : list Effect
}.

(** The component as first rendered. *)
Definition initial : App :=
  {| connectionState := DISCONNECTED; isSpeaking := false;
     lastLog := "Ready to start."; bookedVisits := [];
     sessionRef := None; inputAudioContextRef := None;
     outputAudioContextRef := None; outputNodeRef := None;
     nextStartTimeRef := 0%Q; sourcesRef := []; fresh := 0; trace := [] |}.

(** *** Field updates *)

Definition setConnectionState (v : ConnectionState) (s : App) : App :=
  mkApp v (isSpeaking s) (lastLog s) (bookedVisits s) (sessionRef s)
    (inputAudioContextRef s) (outputAudioContextRef s) (outputNodeRef s)
    (nextStartTimeRef s) (sourcesRef s) (fresh s) (trace s).

Definition setIsSpeaking (v : bool) (s : App) : App :=
  mkApp (connectionState s) v (lastLog s) (bookedVisits s) (sessionRef s)
    (inputAudioContextRef s) (outputAudioContextRef s) (outputNodeRef s)
    (nextStartTimeRef s) (sourcesRef s) (fresh s) (trace s).

Definition setLastLog (v : string) (s : App) : App :=
  mkApp (connectionState s) (isSpeaking s) v (bookedVisits s) (sessionRef s)
    (inputAudioContextRef s) (outputAudioContextRef s) (outputNodeRef s)
    (nextStartTimeRef s) (sourcesRef s) (fresh s) (trace s).

Definition setBookedVisits (v : list (gmap string string)) (s : App) : App :=
  mkApp (connectionState s) (isSpeaking s) (lastLog s) v (sessionRef s)
    (inputAudioContextRef s) (outputAudioContextRef s) (outputNodeRef s)
    (nextStartTimeRef s) (sourcesRef s) (fresh s) (trace s).

Definition setSessionRef (v : option handle) (s : App) : App :=
  mkApp (connectionState s) (isSpeaking s) (lastLog s) (bookedVisits s) v
    (inputAudioContextRef s) (outputAudioContextRef s) (outputNodeRef s)
    (nextStartTimeRef s) (sourcesRef s) (fresh s) (trace s).

Definition setInputAudioContextRef (v : option handle) (s : App) : App :=
  mkApp (connectionState s) (isSpeaking s) (lastLog s) (bookedVisits s)
    (sessionRef s) v (outputAudioContextRef s) (outputNodeRef s)
    (nextStartTimeRef s) (sourcesRef s) (fresh s) (trace s).

Definition setOutputAudioContextRef (v : option handle) (s : App) : App :=
  mkApp (connectionState s) (isSpeaking s) (lastLog s) (bookedVisits s)
    (sessionRef s) (inputAudioContextRef s) v (outputNodeRef s)
    (nextStartTimeRef s) (sourcesRef s) (fresh s) (trace s).

Definition setOutputNodeRef (v : option handle) (s : App) : App :=
  mkApp (connectionState s) (isSpeaking s) (lastLog s) (bookedVisits s)
    (sessionRef s) (inputAudioContextRef s) (outputAudioContextRef s) v
    (nextStartTimeRef s) (sourcesRef s) (fresh s) (trace s).

Definition setNextStartTimeRef (v : Q) (s : App) : App :=
  mkApp (connectionState s) (isSpeaking s) (lastLog s) (bookedVisits s)
    (sessionRef s) (inputAudioContextRef s) (outputAudioContextRef s)
    (outputNodeRef s) v (sourcesRef s) (fresh s) (trace s).

Definition setSourcesRef (v : list handle) (s : App) : App :=
  mkApp (connectionState s) (isSpeaking s) (lastLog s) (bookedVisits s)
    (sessionRef s) (inputAudioContextRef s) (outputAudioContextRef s)
    (outputNodeRef s) (nextStartTimeRef s) v (fresh s) (trace s).

(** Record one outgoing call. *)
Definition emit (e : Effect) (s : App) : App :=
  mkApp (connectionState s) (isSpeaking s) (lastLog s) (bookedVisits s)
    (sessionRef s) (inputAudioContextRef s) (outputAudioContextRef s)
    (outputNodeRef s) (nextStartTimeRef s) (sourcesRef s) (fresh s)
    (trace s ++ [e]).

(** Allocate the handle of a newly constructed object. *)
Definition alloc (s : App) : handle * App :=
  (fresh s,
   mkApp (connectionState s) (isSpeaking s) (lastLog s) (bookedVisits s)
     (sessionRef s) (inputAudioContextRef s) (outputAudioContextRef s)
     (outputNodeRef s) (nextStartTimeRef s) (sourcesRef s) (S (fresh s))
     (trace s)).

(** How an asynchronous handler leaves: it returns, it throws (its promise
    rejects), or it is suspended at an [await]. The state carries every
    assignment made so far. *)
Inductive Outcome {K : Type} :=
| Returned (s : App)
| Threw (s : App)
| Awaiting (k : K) (s : App).
Arguments Outcome : clear implicits.

Definition state_of {K} (o : Outcome K) : App :=
  match o with
  | Returned s | Threw s | Awaiting _ s => s
  end.

(** ** Session lifecycle *)

(** [handleDisconnect] (App.tsx, lines 47-67): drop the session, close and
    drop each audio context that is still referenced, then set the state. *)
Definition handleDisconnect (s : App) : App :=
  let s := match sessionRef s with
           | Some _ => setSessionRef None s
           | None => s
           end in
  let s := match inputAudioContextRef s with
           | Some c => setInputAudioContextRef None (emit (CloseAudioContext c) s)
           | None => s
           end in
  let s := match outputAudioContextRef s with
           | Some c => setOutputAudioContextRef None (emit (CloseAudioContext c) s)
           | None => s
           end in
  let s := setConnectionState DISCONNECTED s in
  let s := setIsSpeaking false s in
  setLastLog "Disconnected." s.

(** What the surroundings answer during [handleConnect]: the configured
    key, whether each of the two [new AudioContext(...)] calls (lines 83 and
    84) succeeds, and how the promise of [getUserMedia] (line 93) settles. *)
Inductive Try := Succeeds | Throws (message : string).

Record Env := mkEnv {
  API_KEY : option string;
  inputContext : Try;
  outputContext : Try;
  userMedia : Try
}.

(** What [handleConnect] keeps across [await getUserMedia(...)]: the
    constants [inputAudioContext] and [outputAudioContext], and how the
    promise it waits for settles. *)
Record Connecting := mkConnecting {
  c_input : handle;
  c_output : handle;
  c_media : Try
}.

(** JavaScript truthiness of an optional string: [undefined] and the empty
    string are falsy. *)
Definition truthy (o : option string) : option string :=
  match o with
  | Some (String a r) => Some (String a r)
  | _ => None
  end.

(** The [catch] block of [handleConnect] (lines 208-212). *)
Definition connect_failed (message : string) (s : App) : App :=
  setLastLog ("Failed to connect: " +:+ message) (setConnectionState ERROR s).

(** [handleConnect] up to its [await] (lines 69-93). The body has no test
    of [connectionState]; its only early exit is the missing key. The refs
    are assigned once both contexts are built (lines 86-87), before the
    [await]; a constructor that throws is caught by the [catch] block. *)
Definition handleConnect_begin (env : Env) (s : App) : Outcome Connecting :=
  match truthy (API_KEY env) with
  | None => Returned (emit (Alert "API Key is missing!") s)
  | Some _ =>
    let s := setConnectionState CONNECTING s in
    let s := setLastLog "Connecting to Gemini..." s in
    let s := emit NewGoogleGenAI s in
    match inputContext env with
    | Throws msg => Returned (connect_failed msg s)
    | Succeeds =>
      let '(inputAudioContext, s) := alloc s in
      let s := emit (NewAudioContext inputAudioContext 16000) s in
      match outputContext env with
      | Throws msg => Returned (connect_failed msg s)
      | Succeeds =>
        let '(outputAudioContext, s) := alloc s in
        let s := emit (NewAudioContext outputAudioContext 24000) s in
        let s := setInputAudioContextRef (Some inputAudioContext) s in
        let s := setOutputAudioContextRef (Some outputAudioContext) s in
        let '(outputNode, s) := alloc s in
        let s := emit (CreateGain outputAudioContext outputNode) s in
        let s := setOutputNodeRef (Some outputNode) s in
        let s := emit GetUserMedia s in
        Awaiting (mkConnecting inputAudioContext outputAudioContext (userMedia env)) s
      end
    end
  end.

(** [handleConnect] from the point where [getUserMedia] settles (lines
    93-212): the session is opened and referenced, or the [catch] block
    runs. Nothing here looks at the state the component is in by then. *)
Definition handleConnect_resume (k : Connecting) (s : App) : App :=
  match c_media k with
  | Throws msg => connect_failed msg s
  | Succeeds =>
    let '(sessionPromise, s) := alloc s in
    let s := emit (LiveConnect sessionPromise) s in
    setSessionRef (Some sessionPromise) s
  end.

(** [handleConnect] with nothing else running while it waits. *)
Definition handleConnect (env : Env) (s : App) : App :=
  match handleConnect_begin env s with
  | Awaiting k s' => handleConnect_resume k s'
  | Returned s' | Threw s' => s'
  end.

(** [toggleConnection] (lines 215-221), the [onClick] of the only button. *)
Definition toggleConnection (env : Env) (s : App) : App :=
  if bool_decide (connectionState s = CONNECTED)
     || bool_decide (connectionState s = CONNECTING)
  then handleDisconnect s
  else handleConnect env s.

(** [toggleConnection] up to the [await] of the [handleConnect] it may call. *)
Definition toggleConnection_begin (env : Env) (s : App) : Outcome Connecting :=
  if bool_decide (connectionState s = CONNECTED)
     || bool_decide (connectionState s = CONNECTING)
  then Returned (handleDisconnect s)
  else handleConnect_begin env s.

(** Callback [onopen] (lines 99-120); [inputAudioContext] is the constant the
    callback closes over. *)
Definition onopen (inputAudioContext : handle) (s : App) : App :=
  let s := setConnectionState CONNECTED s in
  let s := setLastLog "Connected! Say hello." s in
  emit (StartCapture inputAudioContext) s.

(** Callbacks [onclose] (lines 189-192) and [onerror] (lines 193-197). *)
Definition onclose (s : App) : App := handleDisconnect s.

Definition onerror (s : App) : App :=
  handleDisconnect (setLastLog "Error occurred. Please restart." s).

(** ** Playback: the active set *)

(** [sourcesRef] is a JavaScript [Set]: insertion ordered, no duplicates. *)
Definition Set_add (x : handle) (l : list handle) : list handle :=
  if decide (x ∈ l) then l else l ++ [x].

Definition Set_delete (x : handle) (l : list handle) : list handle :=
  filter (λ y, y ≠ x) l.

(** Listener of a source's [ended] event (lines 143-148). *)
Definition source_ended (source : handle) (s : App) : App :=
  let s := setSourcesRef (Set_delete source (sourcesRef s)) s in
  if decide (length (sourcesRef s) = 0%nat) then setIsSpeaking false s else s.

(** [sourcesRef.current.forEach(s => { try { s.stop(); } catch(e) {} })]. *)
Fixpoint stop_each (l : list handle) (s : App) : App :=
  match l with
  | [] => s
  | x :: rest => stop_each rest (emit (SourceStop x) s)
  end.

(** The [interrupted] block of [onmessage] (lines 157-165). *)
Definition handle_interrupted (s : App) : App :=
  let s := setLastLog "User interrupted model." s in
  let s := setIsSpeaking false s in
  let s := stop_each (sourcesRef s) s in
  let s := setSourcesRef [] s in
  setNextStartTimeRef 0%Q s.

(** ** Tool dispatch *)

(** A property read in a template literal; a missing one prints as
    [undefined]. *)
Definition template (args : gmap string string) (key : string) : string :=
  match args !! key with
  | Some v => v
  | None => "undefined"
  end.

Definition success_result : string := "Visit successfully scheduled.".

(** Body of the [for] loop over [message.toolCall.functionCalls]
    (lines 170-185). Reading [args.customerName] throws when [args] is
    [undefined]. The response is sent from [sessionPromise.then], the session
    promise being settled by the time messages arrive. *)
Definition functionCall_body {K} (fc : FunctionCall) (s : App) : Outcome K :=
  if String.eqb (fc_name fc) "book_site_visit" then
    match fc_args fc with
    | None => Threw s
    | Some args =>
      let s := setLastLog ("Booking visit for " +:+ template args "customerName" +:+ "...") s in
      let s := setBookedVisits (bookedVisits s ++ [args]) s in
      Returned (emit (SendToolResponse (fc_id fc) (fc_name fc) success_result) s)
    end
  else Returned s.

Fixpoint for_functionCalls {K} (fcs : list FunctionCall) (s : App) : Outcome K :=
  match fcs with
  | [] => Returned s
  | fc :: rest =>
    match functionCall_body (K:=K) fc s with
    | Returned s' => for_functionCalls rest s'
    | o => o
    end
  end.

(** Lines 156-187: what [onmessage] does after the audio block. *)
Definition onmessage_rest {K} (m : LiveServerMessage) (s : App) : Outcome K :=
  let s := if interrupted m then handle_interrupted s else s in
  match toolCall m with
  | Some fcs => for_functionCalls fcs s
  | None => Returned s
  end.

(** ** Observations on traces *)

(** The [when] arguments of the [start] calls, in call order. *)
Definition starts (tr : list Effect) : list Q :=
  omap (λ e, match e with SourceStart _ t => Some t | _ => None end) tr.

(** The sources on which [start] was called, in call order. *)
Definition started (tr : list Effect) : list handle :=
  omap (λ e, match e with SourceStart x _ => Some x | _ => None end) tr.

Definition stopped (tr : list Effect) : list handle :=
  omap (λ e, match e with SourceStop x => Some x | _ => None end) tr.

(** The payloads whose buffers were handed to a source ([source.buffer =
    audioBuffer], line 140, a few lines before that source is started), in
    call order. *)
Definition scheduled (tr : list Effect) : list string :=
  omap (λ e, match e with SourceBuffer _ d => Some d | _ => None end) tr.

(** Tool responses sent, as (id, name, result). *)
Definition tool_responses (tr : list Effect) : list (string * string * string) :=
  omap (λ e, match e with
             | SendToolResponse i n r => Some (i, n, r)
             | _ => None
             end) tr.

(** Sessions, audio contexts and capture streams asked for. *)
Definition is_acquisition (e : Effect) : bool :=
  match e with
  | NewAudioContext _ _ | GetUserMedia | LiveConnect _ => true
  | _ => false
  end.

Definition acquisitions (tr : list Effect) : list Effect :=
  List.filter is_acquisition tr.

Definition closes (tr : list Effect) : list handle :=
  omap (λ e, match e with CloseAudioContext c => Some c | _ => None end) tr.

(** ** Vocabulary of the statements *)

(** A message that carries one audio chunk and nothing else. *)
Definition audio_chunk (data : string) : LiveServerMessage :=
  mkMessage (Some data) false None.

(** A message that only signals the interruption. *)
Definition interruption : LiveServerMessage := mkMessage None true None.

(** A message that only carries tool calls. *)
Definition tool_call (fcs : list FunctionCall) : LiveServerMessage :=
  mkMessage None false (Some fcs).

Definition is_book (fc : FunctionCall) : bool :=
  String.eqb (fc_name fc) "book_site_visit".

Definition response_to (fc : FunctionCall) : string * string * string :=
  (fc_id fc, fc_name fc, success_result).

(** The function calls of a message ([message.toolCall?.functionCalls]). *)
Definition tool_calls (m : LiveServerMessage) : list FunctionCall :=
  default [] (toolCall m).

(** The calls the loop of lines 169-186 gets through: those before the first
    call named [book_site_visit] that has no arguments object, where reading
    [args.customerName] throws. *)
Fixpoint reached (fcs : list FunctionCall) : list FunctionCall :=
  match fcs with
  | [] => []
  | fc :: rest =>
    match is_book fc, fc_args fc with
    | true, None => []
    | _, _ => fc :: reached rest
    end
  end.

(** The handler of this message gets to the [await]: the message carries
    audio and the output context and node are in place. *)
Definition suspends (m : LiveServerMessage) (s : App) : bool :=
  match truthy (inlineData m), outputAudioContextRef s, outputNodeRef s with
  | Some _, Some _, Some _ => true
  | _, _, _ => false
  end.

(** Number of responses sent that bear a given id. *)
Definition count_responses (id : string) (tr : list Effect) : nat :=
  length (List.filter (λ r, String.eqb (fst (fst r)) id) (tool_responses tr)).

(** The session is torn down: nothing is referenced any more. *)
Definition torn_down (s : App) : Prop :=
  sessionRef s = None ∧ inputAudioContextRef s = None ∧
  outputAudioContextRef s = None ∧ connectionState s = DISCONNECTED.

(** Back-to-back slots from [c]: one start per duration. *)
Fixpoint slots (c : Q) (ds : list Q) : list Q :=
  match ds with
  | [] => []
  | d :: rest => c :: slots (c + d)%Q rest
  end.

(** *** Sample inputs *)

Definition sample_env : Env := mkEnv (Some "k3y") Succeeds Succeeds Succeeds.

Definition no_key_env : Env := mkEnv None Succeeds Succeeds Succeeds.

(** A session that was connected from the first render and has opened. *)
Definition sample_connected : App := onopen 0 (handleConnect sample_env initial).

(** Three payloads of 0.5 s, 0.3 s and 0.2 s; anything else is malformed. *)
Definition sample_decode (data : string) : option Q :=
  if String.eqb data "AAAA" then Some (1 # 2)%Q
  else if String.eqb data "BBBB" then Some (3 # 10)%Q
  else if String.eqb data "CCCC" then Some (1 # 5)%Q
  else None.

Definition jane : gmap string string :=
  <["customerName" := "Jane"]> (<["address" := "12 Elm St"]>
    (<["preferredTime" := "Friday 3pm"]> ∅)).

Definition jane_without_address : gmap string string :=
  <["customerName" := "Jane"]> (<["preferredTime" := "Friday 3pm"]> ∅).

Definition book_call : FunctionCall :=
  mkFunctionCall "abc" "book_site_visit" (Some jane).

Definition book_call_without_address : FunctionCall :=
  mkFunctionCall "abd" "book_site_visit" (Some jane_without_address).

Definition unknown_call : FunctionCall :=
  mkFunctionCall "abe" "cancel_site_visit" (Some jane).

(** ** What is rendered *)

(** The header text (App.tsx, line 240). *)
Definition headerStatus (s : App) : string :=
  if bool_decide (connectionState s = CONNECTED) then "Live" else "Offline".

(** The button of the bottom bar (lines 296-325): [disabled] and its label. *)
Definition buttonDisabled (s : App) : bool :=
  bool_decide (connectionState s = CONNECTING).

(** A click on the button: [onClick={toggleConnection}] with
    [disabled={connectionState === ConnectionState.CONNECTING}] (lines
    297-298). A disabled button dispatches no click. *)
Definition click (env : Env) (s : App) : App :=
  if buttonDisabled s then s else toggleConnection env s.

Definition click_begin (env : Env) (s : App) : Outcome Connecting :=
  if buttonDisabled s then Returned s else toggleConnection_begin env s.

Definition buttonLabel (s : App) : string :=
  if bool_decide (connectionState s = CONNECTING) then "Connecting..."
  else if bool_decide (connectionState s = CONNECTED) then "End Call"
  else "Start Consultation".

(** Props handed to [Visualizer] (line 253). *)
Definition visualizerIsActive (s : App) : bool :=
  isSpeaking s || bool_decide (connectionState s = CONNECTED).

Definition visualizerColor (s : App) : string :=
  if isSpeaking s then "#22c55e" else "#cbd5e1".

(** ** The visualizer (src/components/Visualizer.tsx)

    Lengths are canvas pixels, taken as exact rationals. One run of the
    effect owns [bars], which starts as [Array(5).fill(10)]; [animate] is one
    frame. [random i] is the value [Math.random()] returns for bar [i] of
    that frame. *)
Definition initial_bars : list Q := replicate 5 10%Q.

Definition animate_bars (isActive : bool) (random : nat → Q) (bars : list Q)
  : list Q :=
  if isActive
  then imap (λ i h, let target := (random i * 40 + 10)%Q in
                    (h + (target - h) * (2 # 10))%Q) bars
  else map (λ h, (h + (10 - h) * (2 # 10))%Q) bars.

(** The frames of one run of the effect, oldest first. *)
Fixpoint animate_frames (isActive : bool) (randoms : list (nat → Q))
    (bars : list Q) : list Q :=
  match randoms with
  | [] => bars
  | random :: rest => animate_frames isActive rest (animate_bars isActive random bars)
  end.

(** The canvas element (lines 59-64) and the constants of [animate]. *)
Definition canvas_width : Q := 200.
Definition canvas_height : Q := 100.
Definition barWidth : Q := 8.
Definition gap : Q := 6.

(** The arguments [x, y, width, height] of each [roundRect] call of a frame
    (lines 40-48). *)
Definition bar_rects (bars : list Q) : list (Q * Q * Q * Q) :=
  imap (λ i height,
          let centerX := (canvas_width / 2)%Q in
          let centerY := (canvas_height / 2)%Q in
          let offset := ((inject_Z (Z.of_nat i) - 2) * (barWidth + gap))%Q in
          ((centerX + offset - barWidth / 2)%Q, (centerY - height / 2)%Q,
           barWidth, height))
       bars.

(** Bar heights between the baseline 10 and the largest target 50. *)
Definition bar_in_range (h : Q) : Prop := (10 <= h)%Q ∧ (h <= 50)%Q.

(** [q] to the power [n]. *)
Fixpoint Qpow (q : Q) (n : nat) : Q :=
  match n with
  | O => 1%Q
  | S n => (q * Qpow q n)%Q
  end.

(** A rectangle that lies on the canvas. *)
Definition on_canvas (r : Q * Q * Q * Q) : Prop :=
  let '(x, y, w, h) := r in
  (0 <= x)%Q ∧ (x + w <= canvas_width)%Q ∧ (0 <= y)%Q ∧ (y + h <= canvas_height)%Q.

(** ** Vocabulary of the further statements *)

(** Audio contexts constructed, in call order. *)
Definition created (tr : list Effect) : list handle :=
  omap (λ e, match e with NewAudioContext c _ => Some c | _ => None end) tr.

(** The lifecycle side of the component is the same in [s'] as in [s]:
    state, refs, and the sessions, contexts and streams asked for or
    closed. Handles may have been allocated. *)
Definition lifecycle_untouched (s s' : App) : Prop :=
  connectionState s' = connectionState s ∧
  sessionRef s' = sessionRef s ∧
  inputAudioContextRef s' = inputAudioContextRef s ∧
  outputAudioContextRef s' = outputAudioContextRef s ∧
  outputNodeRef s' = outputNodeRef s ∧
  acquisitions (trace s') = acquisitions (trace s) ∧
  closes (trace s') = closes (trace s) ∧
  created (trace s') = created (trace s) ∧
  (fresh s ≤ fresh s')%nat.

(** Bookkeeping of audio contexts: every referenced context was constructed
    and is not closed, the two refs differ, every closed context was
    constructed, none was closed twice, and no handle in use is ahead of the
    allocation counter. *)
Definition contexts_ok (s : App) : Prop :=
  NoDup (closes (trace s)) ∧
  (∀ c, c ∈ closes (trace s) → c ∈ created (trace s)) ∧
  (∀ c, c ∈ created (trace s) → (c < fresh s)%nat) ∧
  (∀ c, inputAudioContextRef s = Some c →
        c ∈ created (trace s) ∧ c ∉ closes (trace s)) ∧
  (∀ c, outputAudioContextRef s = Some c →
        c ∈ created (trace s) ∧ c ∉ closes (trace s)) ∧
  (∀ c c', inputAudioContextRef s = Some c →
           outputAudioContextRef s = Some c' → c ≠ c').

(** Context [c] was constructed, is not closed and is no longer referenced:
    nothing in the component can reach it. *)
Definition leaked (c : handle) (s : App) : Prop :=
  c ∈ created (trace s) ∧ (c ∉ closes (trace s)) ∧
  inputAudioContextRef s ≠ Some c ∧ outputAudioContextRef s ≠ Some c.

(** Bookkeeping of buffer sources: the active set has no duplicates, its
    members were started and not stopped, no source was stopped twice, and
    no source is ahead of the allocation counter. *)
Definition sources_ok (s : App) : Prop :=
  NoDup (sourcesRef s) ∧
  NoDup (stopped (trace s)) ∧
  (∀ x, x ∈ sourcesRef s → x ∈ started (trace s) ∧ x ∉ stopped (trace s)) ∧
  (∀ x, x ∈ stopped (trace s) → x ∈ started (trace s)) ∧
  (∀ x, x ∈ started (trace s) → (x < fresh s)%nat).

(** Slots (start, duration) that follow one another without overlap between
    time [c] and time [c']: each slot starts no earlier than the end of the
    one before it (or than [c]), and the last one ends by [c']. *)
Fixpoint fits (c : Q) (slots : list (Q * Q)) (c' : Q) : Prop :=
  match slots with
  | [] => (c <= c')%Q
  | (t, d) :: rest => (c <= t)%Q ∧ fits (t + d)%Q rest c'
  end.

(** The [ended] listeners of the sources of [l] fire, in this order. *)
Definition sources_ended (l : list handle) (s : App) : App :=
  fold_left (λ s x, source_ended x s) l s.

(** The playback side of the component is the same in [s'] as in [s]:
    cursor, active set, sources started and stopped. *)
Definition playback_untouched (s s' : App) : Prop :=
  nextStartTimeRef s' = nextStartTimeRef s ∧
  sourcesRef s' = sourcesRef s ∧
  started (trace s') = started (trace s) ∧
  stopped (trace s') = stopped (trace s) ∧
  starts (trace s') = starts (trace s) ∧
  (fresh s ≤ fresh s')%nat ∧
  scheduled (trace s') = scheduled (trace s).

(** A response that reports a booking. *)
Definition is_success (r : string * string * string) : Prop :=
  snd (fst r) = "book_site_visit" ∧ snd r = success_result.

(** From [s] to [s'] bookings were only appended, and as many success
    responses were sent as bookings were appended, and no other response. *)
Definition bookings_answered (s s' : App) : Prop :=
  ∃ (newb : list (gmap string string)) (newr : list (string * string * string)),
    bookedVisits s' = bookedVisits s ++ newb ∧
    tool_responses (trace s') = tool_responses (trace s) ++ newr ∧
    length newb = length newr ∧
    Forall is_success newr.

(** ** The message handler and its interleavings *)

(** What a suspended [onmessage] keeps across [await decodeAudioData(...)]:
    the constants [ctx] and [node], the payload being decoded and the message
    whose remaining blocks run after the audio block. *)
Record Suspended := mkSuspended {
  k_ctx : handle;
  k_node : handle;
  k_data : string;
  k_message : LiveServerMessage
}.

Section Playback.

(** [decodeAudioData(decode(base64Audio), ctx, 24000, 1)] comes from
    [./services/audioUtils], which is not among the sources at hand: it is a
    parameter. [Some d] is a buffer whose [duration] is [d]; [None] is a
    rejected promise. *)
Variable decodeAudioData : string -> option Q.

(** [onmessage] up to the [await] (lines 121-137). [now] is
    [ctx.currentTime] as read on line 130. *)
Definition onmessage_begin (now : Q) (m : LiveServerMessage) (s : App)
  : Outcome Suspended :=
  match truthy (inlineData m) with
  | Some base64Audio =>
    let s := setIsSpeaking true s in
    match outputAudioContextRef s, outputNodeRef s with
    | Some ctx, Some node =>
      let s := setNextStartTimeRef (Qmax (nextStartTimeRef s) now) s in
      Awaiting (mkSuspended ctx node base64Audio m) s
    | _, _ => onmessage_rest m s
    end
  | None => onmessage_rest m s
  end.

(** [onmessage] from the point where the decode settles (lines 139-187). *)
Definition onmessage_resume (k : Suspended) (s : App) : Outcome Suspended :=
  match decodeAudioData (k_data k) with
  | None => Threw s
  | Some duration =>
    let '(source, s) := alloc s in
    let s := emit (CreateBufferSource (k_ctx k) source (k_node k)) s in
    let s := emit (SourceBuffer source (k_data k)) s in
    let s := emit (SourceStart source (nextStartTimeRef s)) s in
    let s := setNextStartTimeRef (nextStartTimeRef s + duration)%Q s in
    let s := setSourcesRef (Set_add source (sourcesRef s)) s in
    onmessage_rest (k_message k) s
  end.

(** The audio block of this message throws: the handler gets to the [await]
    and the decode of the payload is rejected. *)
Definition audio_block_throws (m : LiveServerMessage) (s : App) : bool :=
  match truthy (inlineData m) with
  | Some data =>
    match decodeAudioData data with
    | None => suspends m s
    | Some _ => false
    end
  | None => false
  end.

(** The calls of a message that its handler answers: none when the audio
    block throws, otherwise the calls named [book_site_visit] among those
    the loop gets through. *)
Definition answered_calls (m : LiveServerMessage) (s : App) : list FunctionCall :=
  if audio_block_throws m s then []
  else List.filter is_book (reached (tool_calls m)).

(** A chunk (time of handling, payload, duration) that reaches the decoder
    and decodes to a buffer of that duration. *)
Definition playable (c : Q * string * Q) : Prop :=
  truthy (Some (snd (fst c))) = Some (snd (fst c)) ∧
  decodeAudioData (snd (fst c)) = Some (snd c).

(** One message handled with nothing else running during its decode. *)
Definition onmessage (now : Q) (m : LiveServerMessage) (s : App)
  : Outcome Suspended :=
  match onmessage_begin now m s with
  | Awaiting k s' => onmessage_resume k s'
  | o => o
  end.

(** Messages handled one after the other. A handler that throws only rejects
    its own promise: the next message is handled in the state it left. *)
Fixpoint onmessages (ms : list (Q * LiveServerMessage)) (s : App) : App :=
  match ms with
  | [] => s
  | (now, m) :: rest => onmessages rest (state_of (onmessage now m s))
  end.

(** *** The reactor

    The component together with the handlers that are suspended: message
    handlers in a decode, connect attempts in [getUserMedia]. Events are the
    callbacks the browser and the SDK invoke; [Decoded i] settles the decode
    of the [i]-th suspended message handler and [MediaSettled i] the
    [getUserMedia] promise of the [i]-th suspended connect attempt, in any
    order. *)
Record Sys := mkSys {
  component : App;
  awaiting : list Suspended;
  connecting : list Connecting
}.

Inductive Event :=
| Click (env : Env)
| Open (inputAudioContext : handle)
| Message (now : Q) (m : LiveServerMessage)
| Decoded (i : nat)
| Ended (source : handle)
| Close
| Error
| Unmount
| MediaSettled (i : nat).

Definition settle (o : Outcome Suspended) (pending : list Suspended)
    (cs : list Connecting) : Sys :=
  match o with
  | Awaiting k s => mkSys s (pending ++ [k]) cs
  | Returned s | Threw s => mkSys s pending cs
  end.

Definition settle_connect (o : Outcome Connecting) (pending : list Suspended)
    (cs : list Connecting) : Sys :=
  match o with
  | Awaiting k s => mkSys s pending (cs ++ [k])
  | Returned s | Threw s => mkSys s pending cs
  end.

Definition step (e : Event) (σ : Sys) : Sys :=
  match e with
  | Click env =>
    settle_connect (click_begin env (component σ)) (awaiting σ) (connecting σ)
  | Open c => mkSys (onopen c (component σ)) (awaiting σ) (connecting σ)
  | Message now m =>
    settle (onmessage_begin now m (component σ)) (awaiting σ) (connecting σ)
  | Decoded i =>
    match awaiting σ !! i with
    | Some k =>
      settle (onmessage_resume k (component σ)) (delete i (awaiting σ))
        (connecting σ)
    | None => σ
    end
  | Ended source =>
    mkSys (source_ended source (component σ)) (awaiting σ) (connecting σ)
  | Close => mkSys (onclose (component σ)) (awaiting σ) (connecting σ)
  | Error => mkSys (onerror (component σ)) (awaiting σ) (connecting σ)
  | Unmount => mkSys (handleDisconnect (component σ)) (awaiting σ) (connecting σ)
  | MediaSettled i =>
    match connecting σ !! i with
    | Some k =>
      mkSys (handleConnect_resume k (component σ)) (awaiting σ)
        (delete i (connecting σ))
    | None => σ
    end
  end.

Definition run (es : list Event) (σ : Sys) : Sys :=
  fold_left (λ σ e, step e σ) es σ.



(** Does this event execute the [interrupted] block? *)
Definition runs_interrupted (e : Event) (σ : Sys) : bool :=
  match e with
  | Message now m =>
    match onmessage_begin now m (component σ) with
    | Awaiting _ _ => false
    | _ => interrupted m
    end
  | Decoded i =>
    match awaiting σ !! i with
    | Some k =>
      match decodeAudioData (k_data k) with
      | Some _ => interrupted (k_message k)
      | None => false
      end
    | None => false
    end
  | _ => false
  end.

(** From [s] to [s'] the [start] calls reserved slots that do not overlap:
    the slot of each call begins at its [when] argument and lasts as long
    as the buffer of the payload handed to that source, and the slots fit
    between the cursor of [s] and that of [s']. *)
Definition reserves_without_overlap (s s' : App) : Prop :=
  ∃ (slots : list (Q * Q)) (datas : list string),
    starts (trace s') = starts (trace s) ++ map fst slots ∧
    scheduled (trace s') = scheduled (trace s) ++ datas ∧
    Forall2 (λ data slot, decodeAudioData data = Some (snd slot)) datas slots ∧
    fits (nextStartTimeRef s) slots (nextStartTimeRef s').

(** An event that does not carry the interruption flag. *)
Definition calm (e : Event) : Prop :=
  match e with
  | Message _ m => interrupted m = false
  | _ => True
  end.

(** ** Properties *)

(** *** Traces under the handlers *)

Lemma tool_responses_app (l1 l2 : list Effect) :
  tool_responses (l1 ++ l2) = tool_responses l1 ++ tool_responses l2.
Proof. apply omap_app. Qed.

Lemma starts_app (l1 l2 : list Effect) : starts (l1 ++ l2) = starts l1 ++ starts l2.
Proof. apply omap_app. Qed.

Lemma stopped_app (l1 l2 : list Effect) :
  stopped (l1 ++ l2) = stopped l1 ++ stopped l2.
Proof. apply omap_app. Qed.

Lemma scheduled_app (l1 l2 : list Effect) :
  scheduled (l1 ++ l2) = scheduled l1 ++ scheduled l2.
Proof. apply omap_app. Qed.

Lemma acquisitions_app (l1 l2 : list Effect) :
  acquisitions (l1 ++ l2) = acquisitions l1 ++ acquisitions l2.
Proof. apply List.filter_app. Qed.

(** The [forEach] of the interrupted block stops the sources in set order
    and touches nothing but the trace. *)
Lemma stop_each_spec (l : list handle) (s : App) :
  stop_each l s =
  mkApp (connectionState s) (isSpeaking s) (lastLog s) (bookedVisits s)
    (sessionRef s) (inputAudioContextRef s) (outputAudioContextRef s)
    (outputNodeRef s) (nextStartTimeRef s) (sourcesRef s) (fresh s)
    (trace s ++ map SourceStop l).
Proof.
  revert s. induction l as [|x l IH]; intros s; simpl.
  - rewrite app_nil_r. now destruct s.
  - rewrite IH. simpl. now rewrite <- app_assoc.
Qed.

Lemma stopped_map_SourceStop (l : list handle) : stopped (map SourceStop l) = l.
Proof. induction l as [|x l IH]; simpl; [reflexivity|]. unfold stopped in *. simpl. now rewrite IH. Qed.

Lemma tool_responses_map_SourceStop (l : list handle) :
  tool_responses (map SourceStop l) = [].
Proof. induction l as [|x l IH]; simpl; [reflexivity|exact IH]. Qed.



(** What the interrupted block leaves. *)
Lemma handle_interrupted_spec (s : App) :
  handle_interrupted s =
  mkApp (connectionState s) false "User interrupted model." (bookedVisits s)
    (sessionRef s) (inputAudioContextRef s) (outputAudioContextRef s)
    (outputNodeRef s) 0%Q [] (fresh s)
    (trace s ++ map SourceStop (sourcesRef s)).
Proof. unfold handle_interrupted. rewrite stop_each_spec. reflexivity. Qed.

(** Nothing after the audio block awaits. *)
Lemma for_functionCalls_settled (fcs : list FunctionCall) (s : App) :
  match for_functionCalls (K:=Suspended) fcs s with
  | Awaiting k s' => onmessage_resume k s'
  | o => o
  end = for_functionCalls fcs s.
Proof.
  revert s. induction fcs as [|fc fcs IH]; intros s; simpl; [reflexivity|].
  unfold functionCall_body.
  destruct (String.eqb (fc_name fc) "book_site_visit"); [|apply IH].
  destruct (fc_args fc); [apply IH|reflexivity].
Qed.

Lemma onmessage_rest_settled (m : LiveServerMessage) (s : App) :
  match onmessage_rest (K:=Suspended) m s with
  | Awaiting k s' => onmessage_resume k s'
  | o => o
  end = onmessage_rest m s.
Proof.
  unfold onmessage_rest. destruct (toolCall m); [|reflexivity].
  apply for_functionCalls_settled.
Qed.

Lemma onmessage_rest_cases (m : LiveServerMessage) (s : App) :
  (∃ s', onmessage_rest (K:=Suspended) m s = Returned s') ∨
  (∃ s', onmessage_rest (K:=Suspended) m s = Threw s').
Proof.
  pose proof (onmessage_rest_settled m s) as H.
  destruct (onmessage_rest m s) as [s'|s'|k s'] eqn:E; [left|right|]; eauto.
  unfold onmessage_rest in E. destruct (toolCall m) as [fcs|]; [|discriminate].
  exfalso. clear H. revert E. generalize (if interrupted m then handle_interrupted s else s).
  induction fcs as [|fc fcs IH]; intros s0; simpl; [discriminate|].
  unfold functionCall_body.
  destruct (String.eqb (fc_name fc) "book_site_visit"); [|apply IH].
  destruct (fc_args fc); [apply IH|discriminate].
Qed.

(** The loop over the function calls, however it ends: the calls named
    [book_site_visit] among those it gets through are booked and answered,
    in order. *)
Lemma for_functionCalls_reached (fcs : list FunctionCall) (s : App) :
  tool_responses (trace (state_of (for_functionCalls (K:=Suspended) fcs s))) =
    tool_responses (trace s) ++ map response_to (List.filter is_book (reached fcs)) ∧
  bookedVisits (state_of (for_functionCalls (K:=Suspended) fcs s)) =
    bookedVisits s ++ omap fc_args (List.filter is_book (reached fcs)).
Proof.
  revert s. induction fcs as [|fc fcs IH]; intros s; simpl.
  - rewrite !app_nil_r. split; reflexivity.
  - unfold functionCall_body. fold (is_book fc).
    destruct (is_book fc) eqn:Eb.
    + destruct (fc_args fc) as [args|] eqn:Ea; simpl.
      * rewrite Eb. simpl.
        match goal with |- context [for_functionCalls fcs ?x] =>
          destruct (IH x) as [Ht Hb] end.
        rewrite Ht, Hb. simpl. rewrite tool_responses_app, Ea. simpl.
        rewrite <- !app_assoc. split; reflexivity.
      * rewrite !app_nil_r. split; reflexivity.
    + destruct (fc_args fc); simpl; rewrite Eb; apply IH.
Qed.

Lemma onmessage_rest_reached (m : LiveServerMessage) (s : App) :
  tool_responses (trace (state_of (onmessage_rest (K:=Suspended) m s))) =
    tool_responses (trace s) ++
    map response_to (List.filter is_book (reached (tool_calls m))) ∧
  bookedVisits (state_of (onmessage_rest (K:=Suspended) m s)) =
    bookedVisits s ++ omap fc_args (List.filter is_book (reached (tool_calls m))).
Proof.
  unfold onmessage_rest, tool_calls.
  assert (H : tool_responses (trace (if interrupted m then handle_interrupted s else s)) =
              tool_responses (trace s) ∧
              bookedVisits (if interrupted m then handle_interrupted s else s) =
              bookedVisits s).
  { destruct (interrupted m); [|split; reflexivity].
    rewrite handle_interrupted_spec. simpl.
    rewrite tool_responses_app, tool_responses_map_SourceStop, app_nil_r.
    split; reflexivity. }
  destruct H as [Ht Hb].
  destruct (toolCall m) as [fcs|]; simpl.
  - match goal with |- context [for_functionCalls fcs ?x] =>
      destruct (for_functionCalls_reached fcs x) as [Ht' Hb'] end.
    rewrite Ht', Hb', Ht, Hb. split; reflexivity.
  - rewrite Ht, Hb, !app_nil_r. split; reflexivity.
Qed.

(** The handler up to the [await]: suspended, or done with the message. *)
Lemma onmessage_begin_cases (now : Q) (m : LiveServerMessage) (s : App) :
  (suspends m s = true ∧
   ∃ (ctx node : handle) (data : string),
     truthy (inlineData m) = Some data ∧
     onmessage_begin now m s =
       Awaiting (mkSuspended ctx node data m)
         (setNextStartTimeRef (Qmax (nextStartTimeRef s) now) (setIsSpeaking true s))) ∨
  (suspends m s = false ∧
   ∃ s0, onmessage_begin now m s = onmessage_rest m s0 ∧
     trace s0 = trace s ∧ bookedVisits s0 = bookedVisits s).
Proof.
  unfold suspends, onmessage_begin.
  destruct (truthy (inlineData m)) as [data|];
    [|right; split; [reflexivity|exists s; repeat split]].
  cbn [outputAudioContextRef outputNodeRef setIsSpeaking].
  destruct (outputAudioContextRef s) as [ctx|];
    [|right; split; [reflexivity|eexists; repeat split]].
  destruct (outputNodeRef s) as [node|];
    [|right; split; [reflexivity|eexists; repeat split]].
  left. split; [reflexivity|]. exists ctx, node, data. split; reflexivity.
Qed.

(** The handler from the [await] on, in whatever state the decode settles. *)
Lemma onmessage_resume_reached (k : Suspended) (s : App) :
  let done :=
    match decodeAudioData (k_data k) with
    | Some _ => List.filter is_book (reached (tool_calls (k_message k)))
    | None => []
    end in
  tool_responses (trace (state_of (onmessage_resume k s))) =
    tool_responses (trace s) ++ map response_to done ∧
  bookedVisits (state_of (onmessage_resume k s)) =
    bookedVisits s ++ omap fc_args done.
Proof.
  unfold onmessage_resume. destruct (decodeAudioData (k_data k)) as [d|]; cbv zeta.
  - simpl.
    match goal with |- context [onmessage_rest _ ?x] =>
      destruct (onmessage_rest_reached (k_message k) x) as [Ht Hb] end.
    rewrite Ht, Hb. simpl. rewrite !tool_responses_app. simpl.
    rewrite !app_nil_r. split; reflexivity.
  - simpl. rewrite !app_nil_r. split; reflexivity.
Qed.

(** One message handled with nothing else running during its decode. *)
Lemma onmessage_reached (now : Q) (m : LiveServerMessage) (s : App) :
  tool_responses (trace (state_of (onmessage now m s))) =
    tool_responses (trace s) ++ map response_to (answered_calls m s) ∧
  bookedVisits (state_of (onmessage now m s)) =
    bookedVisits s ++ omap fc_args (answered_calls m s).
Proof.
  unfold onmessage, answered_calls, audio_block_throws.
  destruct (onmessage_begin_cases now m s)
    as [(Hs & ctx & node & data & Ht & ->)|(Hs & s0 & -> & Htr & Hb)].
  - rewrite Ht, Hs.
    match goal with |- context [onmessage_resume ?k ?x] =>
      destruct (onmessage_resume_reached k x) as [Ht' Hb'] end.
    cbn [k_data k_message] in Ht', Hb'. rewrite Ht', Hb'.
    destruct (decodeAudioData data); split; reflexivity.
  - rewrite onmessage_rest_settled, Hs.
    destruct (onmessage_rest_reached m s0) as [Ht' Hb'].
    rewrite Ht', Hb', Htr, Hb.
    destruct (truthy (inlineData m)) as [data|]; [|split; reflexivity].
    destruct (decodeAudioData data); split; reflexivity.
Qed.

(** Calls that all come with what the loop needs are all got through. *)
Lemma reached_app (pre post : list FunctionCall) :
  Forall (λ fc, is_book fc = true → is_Some (fc_args fc)) pre →
  reached (pre ++ post) = pre ++ reached post.
Proof.
  induction 1 as [|fc pre Hfc _ IH]; simpl; [reflexivity|].
  destruct (is_book fc) eqn:Eb; [|now rewrite IH].
  destruct (Hfc eq_refl) as [args ->]. now rewrite IH.
Qed.

Lemma reached_sublist (fcs : list FunctionCall) (fc : FunctionCall) :
  fc ∈ reached fcs → fc ∈ fcs ∧ (is_book fc = true → is_Some (fc_args fc)).
Proof.
  induction fcs as [|fc0 fcs IH]; simpl; [intros H; inversion H|].
  destruct (is_book fc0) eqn:Eb.
  - destruct (fc_args fc0) as [args|] eqn:Ea; [|intros H; inversion H].
    intros [->|H]%elem_of_cons.
    + split; [left|]. intros _. rewrite Ea. now eexists.
    + destruct (IH H) as [H1 H2]. split; [now right|exact H2].
  - assert (G : fc ∈ fc0 :: reached fcs → fc ∈ fc0 :: fcs ∧
                (is_book fc = true → is_Some (fc_args fc))).
    { intros [->|H]%elem_of_cons.
      - split; [left|]. rewrite Eb. discriminate.
      - destruct (IH H) as [H1 H2]. split; [now right|exact H2]. }
    destruct (fc_args fc0); exact G.
Qed.

(** *** Tool calls *)

(** C1 (as the code has it). The responses a message handler sends are, in
    order, one success response, bearing the call's own id and name, for
    each call of the message that is named [book_site_visit] and that the
    handler gets to; it gets to a call when the audio block of the message
    does not throw (no audio, no output context or node, or a payload that
    decodes) and the call and every call named [book_site_visit] before it
    in the message come with an arguments object. Every other call, whatever
    its name, gets no response. When the handler waits for the decode of the
    audio, the responses are sent once the decode has settled, in whatever
    state the component is then; nothing is sent before. *)
Theorem book_site_visit_calls_answered
    (now : Q) (m : LiveServerMessage) (s : App) :
  tool_responses (trace (state_of (onmessage now m s))) =
    tool_responses (trace s) ++ map response_to (answered_calls m s) ∧
  (∀ fc, fc ∈ answered_calls m s →
     fc ∈ tool_calls m ∧ fc_name fc = "book_site_visit" ∧ is_Some (fc_args fc)) ∧
  (audio_block_throws m s = false →
   ∀ pre fc post, tool_calls m = pre ++ fc :: post →
     Forall (λ fc, is_book fc = true → is_Some (fc_args fc)) (pre ++ [fc]) →
     is_book fc = true →
     ∃ post', answered_calls m s = List.filter is_book pre ++ fc :: post') ∧
  (∀ k s1, onmessage_begin now m s = Awaiting k s1 →
     tool_responses (trace s1) = tool_responses (trace s) ∧
     ∀ s2, tool_responses (trace (state_of (onmessage_resume k s2))) =
           tool_responses (trace s2) ++ map response_to (answered_calls m s)) ∧
  (∀ s1, onmessage_begin now m s = Returned s1 ∨ onmessage_begin now m s = Threw s1 →
     s1 = state_of (onmessage now m s)).
Proof.
  split; [apply onmessage_reached|]. split; [|split; [|split]].
  - unfold answered_calls. destruct (audio_block_throws m s); [intros fc H; inversion H|].
    intros fc H. apply list_elem_of_In, filter_In in H. destruct H as [H1 H2].
    apply list_elem_of_In in H1.
    destruct (reached_sublist _ _ H1) as [H3 H4].
    split; [exact H3|]. split; [|now apply H4].
    unfold is_book in H2. now apply String.eqb_eq.
  - intros Ha pre fc post Hm Hall Hb. unfold answered_calls. rewrite Ha, Hm.
    replace (pre ++ fc :: post) with ((pre ++ [fc]) ++ post)
      by (now rewrite <- app_assoc).
    rewrite (reached_app _ _ Hall), <- app_assoc. simpl.
    rewrite List.filter_app. simpl. rewrite Hb. eexists. reflexivity.
  - intros k s1 E.
    destruct (onmessage_begin_cases now m s)
      as [(Hs & ctx & node & data & Ht & E')|(Hs & s0 & E' & _)].
    + rewrite E' in E. injection E as <- <-. split; [reflexivity|]. intros s2.
      match goal with |- context [onmessage_resume ?k ?x] =>
        destruct (onmessage_resume_reached k x) as [Ht' _] end.
      cbn [k_data k_message] in Ht'. rewrite Ht'.
      unfold answered_calls, audio_block_throws. rewrite Ht, Hs.
      destruct (decodeAudioData data); reflexivity.
    + rewrite E' in E.
      destruct (onmessage_rest_cases m s0) as [[s' E'']|[s' E'']];
        rewrite E'' in E; discriminate.
  - intros s1 H. unfold onmessage. destruct H as [-> | ->]; reflexivity.
Qed.

(** C2 (as the code has it). A call named [book_site_visit] that comes with
    an arguments object and that the handler gets to (the audio block of its
    message does not throw, and every call named [book_site_visit] before it
    in the message comes with an arguments object too) is booked and
    answered with the success result under its own id whichever fields that
    object has: no field is looked at before the record is appended. The
    bookings and responses before it are those of the calls named
    [book_site_visit] before it; those after it are those of the calls after
    it that the loop gets through. *)
Theorem book_site_visit_books_any_arguments
    (now : Q) (m : LiveServerMessage) (pre post : list FunctionCall)
    (fc : FunctionCall) (args : gmap string string) (s : App) :
  toolCall m = Some (pre ++ fc :: post) →
  audio_block_throws m s = false →
  Forall (λ fc, is_book fc = true → is_Some (fc_args fc)) pre →
  fc_name fc = "book_site_visit" →
  fc_args fc = Some args →
  let s' := state_of (onmessage now m s) in
  let before := List.filter is_book pre in
  let after := List.filter is_book (reached post) in
  bookedVisits s' =
    bookedVisits s ++ omap fc_args before ++ [args] ++ omap fc_args after ∧
  tool_responses (trace s') =
    tool_responses (trace s) ++ map response_to before ++
    [(fc_id fc, "book_site_visit", success_result)] ++ map response_to after ∧
  (∀ k s1, onmessage_begin now m s = Awaiting k s1 →
     bookedVisits s1 = bookedVisits s ∧
     tool_responses (trace s1) = tool_responses (trace s) ∧
     ∀ s2,
       bookedVisits (state_of (onmessage_resume k s2)) =
         bookedVisits s2 ++ omap fc_args before ++ [args] ++ omap fc_args after ∧
       tool_responses (trace (state_of (onmessage_resume k s2))) =
         tool_responses (trace s2) ++ map response_to before ++
         [(fc_id fc, "book_site_visit", success_result)] ++ map response_to after).
Proof.
  intros Hm Ha Hpre Hn Hargs s' before after.
  assert (Hb : is_book fc = true) by (unfold is_book; now rewrite Hn).
  assert (Hall : Forall (λ fc, is_book fc = true → is_Some (fc_args fc)) (pre ++ [fc])).
  { apply Forall_app. split; [exact Hpre|]. constructor; [|constructor].
    intros _. rewrite Hargs. now eexists. }
  assert (Hr : List.filter is_book (reached (tool_calls m)) = before ++ fc :: after).
  { unfold tool_calls. rewrite Hm. simpl.
    replace (pre ++ fc :: post) with ((pre ++ [fc]) ++ post)
      by (now rewrite <- app_assoc).
    rewrite (reached_app _ _ Hall), <- app_assoc. simpl.
    rewrite List.filter_app. simpl. now rewrite Hb. }
  assert (Hsplit :
    omap fc_args (before ++ fc :: after) =
      omap fc_args before ++ [args] ++ omap fc_args after ∧
    map response_to (before ++ fc :: after) =
      map response_to before ++ [(fc_id fc, "book_site_visit", success_result)] ++
      map response_to after).
  { rewrite omap_app, map_app. simpl. rewrite Hargs. unfold response_to at 2.
    rewrite Hn. split; reflexivity. }
  destruct Hsplit as [Ho Hmap].
  split; [|split].
  - subst s'. rewrite (proj2 (onmessage_reached now m s)).
    unfold answered_calls. now rewrite Ha, Hr, Ho.
  - subst s'. rewrite (proj1 (onmessage_reached now m s)).
    unfold answered_calls. now rewrite Ha, Hr, Hmap.
  - intros k s1 E.
    destruct (onmessage_begin_cases now m s)
      as [(Hs & ctx & node & data & Ht & E')|(Hs & s0 & E' & _)].
    + rewrite E' in E. injection E as <- <-.
      split; [reflexivity|]. split; [reflexivity|]. intros s2.
      match goal with |- context [onmessage_resume ?k ?x] =>
        destruct (onmessage_resume_reached k x) as [Ht' Hb'] end.
      cbn [k_data k_message] in Ht', Hb'. rewrite Ht', Hb'.
      unfold audio_block_throws in Ha. rewrite Ht, Hs in Ha.
      destruct (decodeAudioData data); [|discriminate].
      now rewrite Hr, Ho, Hmap.
    + rewrite E' in E.
      destruct (onmessage_rest_cases m s0) as [[s'' E'']|[s'' E'']];
        rewrite E'' in E; discriminate.
Qed.

(** *** The playback cursor *)



(** One chunk that decodes, handled on its own: a fresh source is started at
    [max(cursor, now)] and the cursor moves to the end of its buffer. *)
Lemma onmessage_playable (now : Q) (data : string) (d : Q) (ctx node : handle) (s : App) :
  outputAudioContextRef s = Some ctx →
  outputNodeRef s = Some node →
  playable (now, data, d) →
  onmessage now (audio_chunk data) s =
  Returned
    (mkApp (connectionState s) true (lastLog s) (bookedVisits s) (sessionRef s)
       (inputAudioContextRef s) (Some ctx) (Some node)
       (Qmax (nextStartTimeRef s) now + d)%Q
       (Set_add (fresh s) (sourcesRef s)) (S (fresh s))
       (((trace s ++ [CreateBufferSource ctx (fresh s) node]) ++
         [SourceBuffer (fresh s) data]) ++
         [SourceStart (fresh s) (Qmax (nextStartTimeRef s) now)])).
Proof.
  intros Hc Hn [Ht Hd]. cbn [fst snd] in Ht, Hd.
  destruct s; simpl in Hc, Hn; subst.
  unfold onmessage, onmessage_begin, audio_chunk. cbn [inlineData].
  rewrite Ht. simpl. unfold onmessage_resume. simpl. rewrite Hd. reflexivity.
Qed.






Lemma settle_component (o : Outcome Suspended) (l : list Suspended)
    (cs : list Connecting) :
  component (settle o l cs) = state_of o.
Proof. now destruct o. Qed.

(** The loop over the function calls leaves the playback side alone. *)
Lemma for_functionCalls_playback (fcs : list FunctionCall) (s : App) :
  stopped (trace (state_of (for_functionCalls (K:=Suspended) fcs s))) =
    stopped (trace s) ∧
  sourcesRef (state_of (for_functionCalls (K:=Suspended) fcs s)) = sourcesRef s ∧
  nextStartTimeRef (state_of (for_functionCalls (K:=Suspended) fcs s)) =
    nextStartTimeRef s.
Proof.
  revert s. induction fcs as [|fc fcs IH]; intros s; simpl; [repeat split|].
  unfold functionCall_body.
  destruct (String.eqb (fc_name fc) "book_site_visit"); [|apply IH].
  destruct (fc_args fc); [|repeat split].
  match goal with |- context [for_functionCalls fcs ?x] =>
    destruct (IH x) as (A & B & C) end.
  rewrite A, B, C. simpl. rewrite stopped_app. simpl. rewrite app_nil_r.
  repeat split.
Qed.

(** C4 (as the code has it). In whatever state the [interrupted] block of a
    message is entered, it calls [stop] on each source of the active set,
    empties the set and sets the cursor to the constant 0, not to the clock;
    so does the handling of a whole message that carries the flag and no
    audio, in which that block is the first thing to run. *)
Theorem interrupted_stops_all_and_zeroes_cursor
    (now : Q) (m : LiveServerMessage) (l : list Suspended)
    (cs : list Connecting) (s : App) :
  interrupted m = true →
  let s' := state_of (onmessage_rest (K:=Suspended) m s) in
  (stopped (trace s') = stopped (trace s) ++ sourcesRef s ∧
   sourcesRef s' = [] ∧
   nextStartTimeRef s' = 0%Q) ∧
  (truthy (inlineData m) = None →
   state_of (onmessage now m s) = s' ∧
   component (step (Message now m) (mkSys s l cs)) = s' ∧
   awaiting (step (Message now m) (mkSys s l cs)) = l).
Proof.
  intros Hi s'. split.
  - subst s'. unfold onmessage_rest. rewrite Hi.
    assert (H : stopped (trace (handle_interrupted s)) = stopped (trace s) ++ sourcesRef s ∧
                sourcesRef (handle_interrupted s) = [] ∧
                nextStartTimeRef (handle_interrupted s) = 0%Q).
    { rewrite handle_interrupted_spec. simpl.
      rewrite stopped_app, stopped_map_SourceStop. repeat split. }
    destruct H as (A & B & C).
    destruct (toolCall m) as [fcs|]; [|simpl; repeat split; assumption].
    destruct (for_functionCalls_playback fcs (handle_interrupted s)) as (A' & B' & C').
    rewrite A', B', C'. repeat split; assumption.
  - intros Ht.
    assert (E : onmessage_begin now m s = onmessage_rest m s)
      by (unfold onmessage_begin; now rewrite Ht).
    unfold onmessage. cbn [step component awaiting connecting]. rewrite E.
    rewrite onmessage_rest_settled, settle_component.
    split; [reflexivity|]. split; [reflexivity|].
    destruct (onmessage_rest_cases m s) as [[s1 E1]|[s1 E1]]; rewrite E1; reflexivity.
Qed.

(** C7 (as the code has it). When the payload of a message fails to decode
    (output context and node in place), the handler throws at the [await]:
    it has raised [isSpeaking] and taken the [max] of cursor and clock, and
    nothing else happens, in particular nothing is written to the status
    line, nothing is scheduled and the connection state stays. The handler of
    the next message runs as usual: a chunk that decodes is started at the
    [max] of that cursor and its own clock, and advances the cursor by its
    duration. *)
Theorem decode_failure_is_silent
    (now : Q) (m : LiveServerMessage) (data : string) (ctx node : handle)
    (now2 : Q) (data2 : string) (d2 : Q) (s : App) :
  truthy (inlineData m) = Some data →
  outputAudioContextRef s = Some ctx →
  outputNodeRef s = Some node →
  decodeAudioData data = None →
  playable (now2, data2, d2) →
  let s1 := state_of (onmessage now m s) in
  let s2 := state_of (onmessage now2 (audio_chunk data2) s1) in
  onmessage now m s = Threw s1 ∧
  lastLog s1 = lastLog s ∧
  trace s1 = trace s ∧
  sourcesRef s1 = sourcesRef s ∧
  connectionState s1 = connectionState s ∧
  nextStartTimeRef s1 = Qmax (nextStartTimeRef s) now ∧
  starts (trace s2) = starts (trace s) ++ [Qmax (nextStartTimeRef s1) now2] ∧
  nextStartTimeRef s2 = (Qmax (nextStartTimeRef s1) now2 + d2)%Q ∧
  connectionState s2 = connectionState s.
Proof.
  intros Ht Hc Hn Hd Hp s1 s2.
  assert (H1 : onmessage now m s =
               Threw (setNextStartTimeRef (Qmax (nextStartTimeRef s) now)
                        (setIsSpeaking true s))).
  { unfold onmessage, onmessage_begin. rewrite Ht. simpl. rewrite Hc, Hn.
    unfold onmessage_resume. simpl. now rewrite Hd. }
  subst s2. subst s1. rewrite H1. simpl state_of.
  split; [reflexivity|]. do 5 (split; [reflexivity|]).
  match goal with |- context [onmessage now2 _ ?x] =>
    rewrite (onmessage_playable now2 data2 d2 ctx node x Hc Hn Hp) end. simpl.
  rewrite !starts_app. simpl. rewrite !app_nil_r. repeat split.
Qed.

(** The handlers other than the interrupted block never assign the cursor
    a value other than a [max] with it or a sum from it. *)
Lemma handleDisconnect_cursor (s : App) :
  nextStartTimeRef (handleDisconnect s) = nextStartTimeRef s.
Proof.
  unfold handleDisconnect.
  destruct s as [? ? ? ? [?|] [?|] [?|] ? ? ? ? ?]; reflexivity.
Qed.

Lemma handleConnect_begin_cursor (env : Env) (s : App) :
  nextStartTimeRef (state_of (handleConnect_begin env s)) = nextStartTimeRef s.
Proof.
  unfold handleConnect_begin.
  destruct (truthy (API_KEY env)); [|reflexivity].
  destruct (inputContext env); [|reflexivity].
  destruct (outputContext env); reflexivity.
Qed.

Lemma handleConnect_resume_cursor (k : Connecting) (s : App) :
  nextStartTimeRef (handleConnect_resume k s) = nextStartTimeRef s.
Proof. unfold handleConnect_resume. destruct (c_media k); reflexivity. Qed.

Lemma click_begin_cursor (env : Env) (s : App) :
  nextStartTimeRef (state_of (click_begin env s)) = nextStartTimeRef s.
Proof.
  unfold click_begin, toggleConnection_begin.
  destruct (buttonDisabled s); [reflexivity|].
  destruct (_ || _); [apply handleDisconnect_cursor|apply handleConnect_begin_cursor].
Qed.

Lemma settle_connect_component (o : Outcome Connecting) (l : list Suspended)
    (cs : list Connecting) :
  component (settle_connect o l cs) = state_of o.
Proof. now destruct o. Qed.

Lemma source_ended_cursor (x : handle) (s : App) :
  nextStartTimeRef (source_ended x s) = nextStartTimeRef s.
Proof. unfold source_ended. now case_decide. Qed.

Lemma for_functionCalls_cursor (fcs : list FunctionCall) (s : App) :
  nextStartTimeRef (state_of (for_functionCalls (K:=Suspended) fcs s)) =
  nextStartTimeRef s.
Proof.
  revert s. induction fcs as [|fc fcs IH]; intros s; simpl; [reflexivity|].
  unfold functionCall_body.
  destruct (String.eqb (fc_name fc) "book_site_visit"); [|apply IH].
  destruct (fc_args fc); [|reflexivity]. now rewrite IH.
Qed.

Lemma onmessage_rest_cursor (m : LiveServerMessage) (s : App) :
  interrupted m = false →
  nextStartTimeRef (state_of (onmessage_rest (K:=Suspended) m s)) =
  nextStartTimeRef s.
Proof.
  intros Hi. unfold onmessage_rest. rewrite Hi.
  destruct (toolCall m); [apply for_functionCalls_cursor|reflexivity].
Qed.

(** C9. Buffers having nonnegative durations, every event of the reactor
    that does not execute the interrupted block (a click on the button, the
    session opening, closing or failing, a message arriving, a decode
    settling, a source ending, the unmount) leaves the cursor where it was or
    further: an arriving chunk takes the [max] with the clock, a decoded one
    adds its duration. *)
Theorem cursor_nondecreasing (e : Event) (σ : Sys) :
  (∀ (data : string) (d : Q), decodeAudioData data = Some d → (0 <= d)%Q) →
  runs_interrupted e σ = false →
  (nextStartTimeRef (component σ) <= nextStartTimeRef (component (step e σ)))%Q.
Proof.
  intros Hdur Hni. destruct σ as [s l cs].
  destruct e as [env|c|now m|i|x| | | |j];
    cbn [step component awaiting connecting runs_interrupted] in *.
  - rewrite settle_connect_component, click_begin_cursor. apply Qle_refl.
  - apply Qle_refl.
  - rewrite settle_component. unfold onmessage_begin in *.
    assert (Hrest : ∀ s0, match onmessage_rest (K:=Suspended) m s0 with
                          | Awaiting _ _ => false
                          | _ => interrupted m
                          end = false → interrupted m = false).
    { intros s0 H. destruct (onmessage_rest_cases m s0) as [[s' E]|[s' E]];
        now rewrite E in H. }
    destruct (truthy (inlineData m)) as [data|].
    + simpl in *.
      destruct (outputAudioContextRef s), (outputNodeRef s); simpl in *;
        try (rewrite (onmessage_rest_cursor m _ (Hrest _ Hni)); apply Qle_refl).
      apply Q.le_max_l.
    + rewrite (onmessage_rest_cursor m _ (Hrest _ Hni)). apply Qle_refl.
  - destruct (l !! i) as [k|]; [|apply Qle_refl].
    rewrite settle_component. unfold onmessage_resume.
    destruct (decodeAudioData (k_data k)) as [d|] eqn:Hd; [|apply Qle_refl].
    simpl. rewrite (onmessage_rest_cursor _ _ Hni). simpl.
    specialize (Hdur _ _ Hd). lra.
  - rewrite source_ended_cursor. apply Qle_refl.
  - unfold onclose. rewrite handleDisconnect_cursor. apply Qle_refl.
  - unfold onerror. rewrite handleDisconnect_cursor. apply Qle_refl.
  - rewrite handleDisconnect_cursor. apply Qle_refl.
  - destruct (cs !! j) as [k|]; [|apply Qle_refl].
    cbn [component]. rewrite handleConnect_resume_cursor. apply Qle_refl.
Qed.

(** *** Decodes in flight *)





(** *** What each handler leaves alone *)

Lemma closes_app (l1 l2 : list Effect) : closes (l1 ++ l2) = closes l1 ++ closes l2.
Proof. apply omap_app. Qed.

Lemma created_app (l1 l2 : list Effect) :
  created (l1 ++ l2) = created l1 ++ created l2.
Proof. apply omap_app. Qed.

Lemma started_app (l1 l2 : list Effect) :
  started (l1 ++ l2) = started l1 ++ started l2.
Proof. apply omap_app. Qed.

Lemma observations_map_SourceStop (l : list handle) :
  acquisitions (map SourceStop l) = [] ∧ closes (map SourceStop l) = [] ∧
  created (map SourceStop l) = [] ∧ started (map SourceStop l) = [].
Proof. induction l as [|x l IH]; simpl; [repeat split|exact IH]. Qed.

Ltac trace_simpl :=
  rewrite ?acquisitions_app, ?closes_app, ?created_app, ?started_app,
    ?stopped_app, ?starts_app, ?tool_responses_app, ?scheduled_app;
  simpl; rewrite ?app_nil_r.

Lemma lifecycle_untouched_refl (s : App) : lifecycle_untouched s s.
Proof. unfold lifecycle_untouched. repeat split; lia. Qed.

Lemma lifecycle_untouched_trans (s1 s2 s3 : App) :
  lifecycle_untouched s1 s2 → lifecycle_untouched s2 s3 → lifecycle_untouched s1 s3.
Proof.
  unfold lifecycle_untouched.
  intros (A1 & A2 & A3 & A4 & A5 & A6 & A7 & A8 & A9)
         (B1 & B2 & B3 & B4 & B5 & B6 & B7 & B8 & B9).
  repeat split; try congruence. lia.
Qed.

Lemma playback_untouched_refl (s : App) : playback_untouched s s.
Proof. unfold playback_untouched. repeat split; lia. Qed.

Lemma playback_untouched_trans (s1 s2 s3 : App) :
  playback_untouched s1 s2 → playback_untouched s2 s3 → playback_untouched s1 s3.
Proof.
  unfold playback_untouched.
  intros (A1 & A2 & A3 & A4 & A5 & A6 & A7) (B1 & B2 & B3 & B4 & B5 & B6 & B7).
  repeat split; try congruence. lia.
Qed.

Lemma bookings_answered_refl (s : App) : bookings_answered s s.
Proof. exists [], []. rewrite !app_nil_r. repeat split. constructor. Qed.

Lemma bookings_answered_trans (s1 s2 s3 : App) :
  bookings_answered s1 s2 → bookings_answered s2 s3 → bookings_answered s1 s3.
Proof.
  intros (b1 & r1 & A1 & A2 & A3 & A4) (b2 & r2 & B1 & B2 & B3 & B4).
  exists (b1 ++ b2), (r1 ++ r2).
  rewrite B1, B2, A1, A2, <- !app_assoc, !length_app, A3, B3.
  repeat split. now apply Forall_app.
Qed.

Lemma handle_interrupted_lifecycle (s : App) :
  lifecycle_untouched s (handle_interrupted s).
Proof.
  rewrite handle_interrupted_spec. unfold lifecycle_untouched. simpl.
  destruct (observations_map_SourceStop (sourcesRef s)) as (A & B & C & _).
  trace_simpl. rewrite A, B, C, !app_nil_r. repeat split; lia.
Qed.

Lemma handle_interrupted_bookings (s : App) :
  bookings_answered s (handle_interrupted s).
Proof.
  rewrite handle_interrupted_spec. exists [], []. simpl.
  trace_simpl. rewrite tool_responses_map_SourceStop, !app_nil_r.
  repeat split. constructor.
Qed.

Lemma for_functionCalls_untouched (fcs : list FunctionCall) (s : App) :
  lifecycle_untouched s (state_of (for_functionCalls (K:=Suspended) fcs s)) ∧
  playback_untouched s (state_of (for_functionCalls (K:=Suspended) fcs s)) ∧
  bookings_answered s (state_of (for_functionCalls (K:=Suspended) fcs s)).
Proof.
  revert s. induction fcs as [|fc fcs IH]; intros s; simpl.
  - split; [apply lifecycle_untouched_refl|].
    split; [apply playback_untouched_refl|apply bookings_answered_refl].
  - unfold functionCall_body.
    destruct (String.eqb (fc_name fc) "book_site_visit") eqn:En; [|apply IH].
    destruct (fc_args fc) as [args|]; simpl.
    + match goal with |- context [for_functionCalls fcs ?x] =>
        destruct (IH x) as (L & P & B); set (s1 := x) in * end.
      split; [|split].
      * eapply lifecycle_untouched_trans; [|exact L].
        unfold lifecycle_untouched, s1. simpl. trace_simpl. repeat split; lia.
      * eapply playback_untouched_trans; [|exact P].
        unfold playback_untouched, s1. simpl. trace_simpl. repeat split; lia.
      * eapply bookings_answered_trans; [|exact B].
        exists [args], [response_to fc]. unfold s1. simpl. trace_simpl.
        repeat split. constructor; [|constructor].
        split; [|reflexivity]. simpl. now apply String.eqb_eq.
    + split; [apply lifecycle_untouched_refl|].
      split; [apply playback_untouched_refl|apply bookings_answered_refl].
Qed.

Lemma onmessage_rest_untouched (m : LiveServerMessage) (s : App) :
  lifecycle_untouched s (state_of (onmessage_rest (K:=Suspended) m s)) ∧
  bookings_answered s (state_of (onmessage_rest (K:=Suspended) m s)).
Proof.
  unfold onmessage_rest.
  assert (H : lifecycle_untouched s (if interrupted m then handle_interrupted s else s) ∧
              bookings_answered s (if interrupted m then handle_interrupted s else s)).
  { destruct (interrupted m).
    - split; [apply handle_interrupted_lifecycle|apply handle_interrupted_bookings].
    - split; [apply lifecycle_untouched_refl|apply bookings_answered_refl]. }
  destruct H as [L B]. destruct (toolCall m) as [fcs|]; [|now split].
  match goal with |- context [for_functionCalls fcs ?x] =>
    destruct (for_functionCalls_untouched fcs x) as (L' & _ & B') end.
  split; [exact (lifecycle_untouched_trans _ _ _ L L')
         |exact (bookings_answered_trans _ _ _ B B')].
Qed.

Lemma onmessage_begin_untouched (now : Q) (m : LiveServerMessage) (s : App) :
  lifecycle_untouched s (state_of (onmessage_begin now m s)) ∧
  bookings_answered s (state_of (onmessage_begin now m s)).
Proof.
  unfold onmessage_begin.
  destruct (truthy (inlineData m)) as [data|]; [|apply onmessage_rest_untouched].
  assert (H : lifecycle_untouched s (setIsSpeaking true s) ∧
              bookings_answered s (setIsSpeaking true s)).
  { split; [unfold lifecycle_untouched; simpl; repeat split; lia|].
    exists [], []; simpl; rewrite !app_nil_r; repeat split; constructor. }
  destruct H as [L B].
  assert (R : lifecycle_untouched s (state_of (onmessage_rest (K:=Suspended) m (setIsSpeaking true s))) ∧
              bookings_answered s (state_of (onmessage_rest (K:=Suspended) m (setIsSpeaking true s)))).
  { destruct (onmessage_rest_untouched m (setIsSpeaking true s)) as [L' B'].
    split; [exact (lifecycle_untouched_trans _ _ _ L L')
           |exact (bookings_answered_trans _ _ _ B B')]. }
  simpl. destruct (outputAudioContextRef s); [|exact R].
  destruct (outputNodeRef s); [|exact R].
  simpl. split; [unfold lifecycle_untouched; simpl; repeat split; lia|].
  exists [], []; simpl; rewrite !app_nil_r; repeat split; constructor.
Qed.

Lemma onmessage_resume_untouched (k : Suspended) (s : App) :
  lifecycle_untouched s (state_of (onmessage_resume k s)) ∧
  bookings_answered s (state_of (onmessage_resume k s)).
Proof.
  unfold onmessage_resume. destruct (decodeAudioData (k_data k)) as [d|].
  - simpl.
    match goal with |- context [onmessage_rest _ ?x] =>
      destruct (onmessage_rest_untouched (k_message k) x) as [L B];
      set (s1 := x) in * end.
    split.
    + eapply lifecycle_untouched_trans; [|exact L].
      unfold lifecycle_untouched, s1. simpl. trace_simpl. repeat split; lia.
    + eapply bookings_answered_trans; [|exact B].
      exists [], []. unfold s1. simpl. trace_simpl. repeat split. constructor.
  - split; [apply lifecycle_untouched_refl|apply bookings_answered_refl].
Qed.

Lemma onmessage_untouched (now : Q) (m : LiveServerMessage) (s : App) :
  lifecycle_untouched s (state_of (onmessage now m s)) ∧
  bookings_answered s (state_of (onmessage now m s)).
Proof.
  unfold onmessage.
  destruct (onmessage_begin_untouched now m s) as [L B].
  destruct (onmessage_begin now m s) as [s1|s1|k s1]; simpl in *; try now split.
  destruct (onmessage_resume_untouched k s1) as [L' B'].
  split; [exact (lifecycle_untouched_trans _ _ _ L L')
         |exact (bookings_answered_trans _ _ _ B B')].
Qed.

Lemma handleDisconnect_untouched (s : App) :
  playback_untouched s (handleDisconnect s) ∧
  bookings_answered s (handleDisconnect s).
Proof.
  unfold handleDisconnect, playback_untouched.
  destruct s as [? ? ? ? [?|] [?|] [?|] ? ? ? ? ?]; simpl; trace_simpl;
    (split; [repeat split; lia|]);
    exists [], []; simpl; trace_simpl; repeat split; constructor.
Qed.

Lemma handleConnect_begin_untouched (env : Env) (s : App) :
  playback_untouched s (state_of (handleConnect_begin env s)) ∧
  bookings_answered s (state_of (handleConnect_begin env s)).
Proof.
  unfold handleConnect_begin, playback_untouched.
  destruct (truthy (API_KEY env)); [|simpl; trace_simpl].
  - destruct (inputContext env); [destruct (outputContext env)|]; simpl; trace_simpl;
      (split; [repeat split; lia|]);
      exists [], []; simpl; trace_simpl; repeat split; constructor.
  - split; [repeat split; lia|].
    exists [], []; simpl; trace_simpl; repeat split; constructor.
Qed.

Lemma handleConnect_resume_untouched (k : Connecting) (s : App) :
  playback_untouched s (handleConnect_resume k s) ∧
  bookings_answered s (handleConnect_resume k s).
Proof.
  unfold handleConnect_resume, playback_untouched.
  destruct (c_media k); simpl; trace_simpl;
    (split; [repeat split; lia|]);
    exists [], []; simpl; trace_simpl; repeat split; constructor.
Qed.

Lemma handleConnect_untouched (env : Env) (s : App) :
  playback_untouched s (handleConnect env s) ∧
  bookings_answered s (handleConnect env s).
Proof.
  unfold handleConnect.
  destruct (handleConnect_begin_untouched env s) as [P B].
  destruct (handleConnect_begin env s) as [s1|s1|k s1]; simpl in P, B;
    try (split; assumption).
  destruct (handleConnect_resume_untouched k s1) as [P' B'].
  split; [exact (playback_untouched_trans _ _ _ P P')
         |exact (bookings_answered_trans _ _ _ B B')].
Qed.

Lemma click_begin_untouched (env : Env) (s : App) :
  playback_untouched s (state_of (click_begin env s)) ∧
  bookings_answered s (state_of (click_begin env s)).
Proof.
  unfold click_begin, toggleConnection_begin.
  destruct (buttonDisabled s);
    [split; [apply playback_untouched_refl|apply bookings_answered_refl]|].
  destruct (_ || _); [apply handleDisconnect_untouched|apply handleConnect_begin_untouched].
Qed.

Lemma onopen_untouched (c : handle) (s : App) :
  playback_untouched s (onopen c s) ∧ bookings_answered s (onopen c s).
Proof.
  unfold onopen, playback_untouched. simpl. trace_simpl.
  split; [repeat split; lia|].
  exists [], []; simpl; trace_simpl; repeat split; constructor.
Qed.

Lemma onerror_untouched (s : App) :
  playback_untouched s (onerror s) ∧ bookings_answered s (onerror s).
Proof.
  unfold onerror.
  destruct (handleDisconnect_untouched (setLastLog "Error occurred. Please restart." s))
    as [P B].
  split; [exact P|exact B].
Qed.

Lemma source_ended_untouched (x : handle) (s : App) :
  lifecycle_untouched s (source_ended x s) ∧ bookings_answered s (source_ended x s).
Proof.
  unfold source_ended, lifecycle_untouched. simpl. case_decide; simpl;
    (split; [repeat split; lia|]);
    exists [], []; simpl; rewrite !app_nil_r; repeat split; constructor.
Qed.

Lemma step_bookings (e : Event) (σ : Sys) :
  bookings_answered (component σ) (component (step e σ)).
Proof.
  destruct σ as [s l cs]. destruct e as [env|c|now m|i|x| | | |j];
    cbn [step component awaiting connecting].
  - rewrite settle_connect_component. apply click_begin_untouched.
  - apply onopen_untouched.
  - rewrite settle_component. apply onmessage_begin_untouched.
  - destruct (l !! i) as [k|]; [|apply bookings_answered_refl].
    rewrite settle_component. apply onmessage_resume_untouched.
  - apply source_ended_untouched.
  - apply handleDisconnect_untouched.
  - apply onerror_untouched.
  - apply handleDisconnect_untouched.
  - destruct (cs !! j) as [k|]; [|apply bookings_answered_refl].
    apply handleConnect_resume_untouched.
Qed.

(** *** Bookkeeping of audio contexts *)

Lemma contexts_ok_untouched (s s' : App) :
  lifecycle_untouched s s' → contexts_ok s → contexts_ok s'.
Proof.
  unfold lifecycle_untouched, contexts_ok.
  intros (_ & _ & E3 & E4 & _ & _ & E7 & E8 & E9) (H1 & H2 & H3 & H4 & H5 & H6).
  rewrite E3, E4, E7, E8. repeat split; auto.
  - intros c Hc. specialize (H3 c Hc). lia.
  - now apply H4.
  - now apply H4.
  - now apply H5.
  - now apply H5.
Qed.

Lemma elem_of_option_list (o : option handle) (x : handle) :
  x ∈ option_list o ↔ o = Some x.
Proof.
  destruct o as [y|]; simpl.
  - rewrite list_elem_of_singleton. split; [now intros ->|now intros [= ->]].
  - rewrite elem_of_nil. split; [tauto|discriminate].
Qed.

(** [handleDisconnect] closes the contexts that are referenced, and those
    only. *)
Lemma handleDisconnect_closes (s : App) :
  closes (trace (handleDisconnect s)) =
    closes (trace s) ++ option_list (inputAudioContextRef s) ++
    option_list (outputAudioContextRef s) ∧
  created (trace (handleDisconnect s)) = created (trace s) ∧
  inputAudioContextRef (handleDisconnect s) = None ∧
  outputAudioContextRef (handleDisconnect s) = None ∧
  fresh (handleDisconnect s) = fresh s.
Proof.
  unfold handleDisconnect.
  destruct s as [? ? ? ? [?|] [?|] [?|] ? ? ? ? ?]; simpl; trace_simpl;
    rewrite <- ?app_assoc; repeat split.
Qed.

Lemma handleDisconnect_contexts_ok (s : App) :
  contexts_ok s → contexts_ok (handleDisconnect s).
Proof.
  unfold contexts_ok. intros (H1 & H2 & H3 & H4 & H5 & H6).
  destruct (handleDisconnect_closes s) as (-> & -> & -> & -> & ->).
  split; [|split; [|split; [exact H3|repeat split; discriminate]]].
  - apply NoDup_app. split; [exact H1|]. split.
    + intros x Hx Hin. apply elem_of_app in Hin as [Hin|Hin];
        apply elem_of_option_list in Hin.
      * now apply (H4 x Hin).
      * now apply (H5 x Hin).
    + apply NoDup_app. split; [destruct (inputAudioContextRef s); repeat constructor; apply not_elem_of_nil|].
      split; [|destruct (outputAudioContextRef s); repeat constructor; apply not_elem_of_nil].
      intros x Hx Hin. apply elem_of_option_list in Hx, Hin.
      exact (H6 x x Hx Hin eq_refl).
  - intros c Hc. apply elem_of_app in Hc as [Hc|Hc]; [now apply H2|].
    apply elem_of_app in Hc as [Hc|Hc]; apply elem_of_option_list in Hc.
    + now apply (H4 c Hc).
    + now apply (H5 c Hc).
Qed.

(** Contexts may have been built, but none was closed and the refs are as
    they were. *)
Lemma contexts_ok_grow (s s' : App) (extra : list handle) :
  closes (trace s') = closes (trace s) →
  created (trace s') = created (trace s) ++ extra →
  inputAudioContextRef s' = inputAudioContextRef s →
  outputAudioContextRef s' = outputAudioContextRef s →
  (fresh s ≤ fresh s')%nat →
  (∀ c, c ∈ extra → (c < fresh s')%nat) →
  contexts_ok s → contexts_ok s'.
Proof.
  unfold contexts_ok.
  intros E1 E2 E3 E4 Hf He (H1 & H2 & H3 & H4 & H5 & H6).
  rewrite E1, E2, E3, E4. split; [exact H1|]. split; [|split; [|split; [|split]]].
  - intros c Hc. apply elem_of_app. left. now apply H2.
  - intros c Hc. apply elem_of_app in Hc as [Hc|Hc]; [|now apply He].
    specialize (H3 c Hc). lia.
  - intros c Hc. destruct (H4 c Hc) as [A B].
    split; [apply elem_of_app; now left|exact B].
  - intros c Hc. destruct (H5 c Hc) as [A B].
    split; [apply elem_of_app; now left|exact B].
  - exact H6.
Qed.

(** A connect attempt that gets to build its two audio contexts references
    them and is suspended at [getUserMedia]; it closes nothing. *)
Lemma handleConnect_begin_contexts (env : Env) (key : string) (s : App) :
  truthy (API_KEY env) = Some key →
  inputContext env = Succeeds →
  outputContext env = Succeeds →
  ∃ s1, handleConnect_begin env s =
          Awaiting (mkConnecting (fresh s) (S (fresh s)) (userMedia env)) s1 ∧
    closes (trace s1) = closes (trace s) ∧
    created (trace s1) = created (trace s) ++ [fresh s; S (fresh s)] ∧
    inputAudioContextRef s1 = Some (fresh s) ∧
    outputAudioContextRef s1 = Some (S (fresh s)) ∧
    outputNodeRef s1 = Some (S (S (fresh s))) ∧
    fresh s1 = S (S (S (fresh s))) ∧
    sessionRef s1 = sessionRef s ∧
    connectionState s1 = CONNECTING ∧
    trace s1 = trace s ++
      [NewGoogleGenAI; NewAudioContext (fresh s) 16000;
       NewAudioContext (S (fresh s)) 24000;
       CreateGain (S (fresh s)) (S (S (fresh s))); GetUserMedia].
Proof.
  intros Hk Hi Ho. unfold handleConnect_begin. rewrite Hk, Hi, Ho.
  eexists. split; [reflexivity|]. simpl. trace_simpl. rewrite <- !app_assoc.
  repeat split.
Qed.

(** The continuation of a connect attempt builds, closes and references no
    audio context. *)
Lemma handleConnect_resume_contexts (k : Connecting) (s : App) :
  closes (trace (handleConnect_resume k s)) = closes (trace s) ∧
  created (trace (handleConnect_resume k s)) = created (trace s) ∧
  inputAudioContextRef (handleConnect_resume k s) = inputAudioContextRef s ∧
  outputAudioContextRef (handleConnect_resume k s) = outputAudioContextRef s ∧
  outputNodeRef (handleConnect_resume k s) = outputNodeRef s ∧
  (fresh s ≤ fresh (handleConnect_resume k s))%nat.
Proof.
  unfold handleConnect_resume.
  destruct (c_media k); simpl; trace_simpl; repeat split; lia.
Qed.

Lemma handleConnect_contexts (env : Env) (key : string) (s : App) :
  truthy (API_KEY env) = Some key →
  inputContext env = Succeeds →
  outputContext env = Succeeds →
  closes (trace (handleConnect env s)) = closes (trace s) ∧
  created (trace (handleConnect env s)) = created (trace s) ++ [fresh s; S (fresh s)] ∧
  inputAudioContextRef (handleConnect env s) = Some (fresh s) ∧
  outputAudioContextRef (handleConnect env s) = Some (S (fresh s)) ∧
  (S (S (fresh s)) ≤ fresh (handleConnect env s))%nat.
Proof.
  intros Hk Hi Ho.
  destruct (handleConnect_begin_contexts env key s Hk Hi Ho)
    as (s1 & E & B1 & B2 & B3 & B4 & _ & B6 & _).
  unfold handleConnect. rewrite E.
  destruct (handleConnect_resume_contexts
              (mkConnecting (fresh s) (S (fresh s)) (userMedia env)) s1)
    as (R1 & R2 & R3 & R4 & _ & R6).
  rewrite R1, R2, R3, R4, B1, B2, B3, B4. repeat split. lia.
Qed.

Lemma handleConnect_begin_contexts_ok (env : Env) (s : App) :
  contexts_ok s → contexts_ok (state_of (handleConnect_begin env s)).
Proof.
  destruct (truthy (API_KEY env)) as [key|] eqn:Hk.
  2:{ unfold handleConnect_begin. rewrite Hk.
      apply (contexts_ok_grow _ _ []); simpl; trace_simpl;
        try reflexivity; try lia. intros c Hc. now apply elem_of_nil in Hc. }
  destruct (inputContext env) eqn:Hi.
  2:{ unfold handleConnect_begin. rewrite Hk, Hi.
      apply (contexts_ok_grow _ _ []); simpl; trace_simpl;
        try reflexivity; try lia. intros c Hc. now apply elem_of_nil in Hc. }
  destruct (outputContext env) eqn:Ho.
  2:{ unfold handleConnect_begin. rewrite Hk, Hi, Ho.
      apply (contexts_ok_grow _ _ [fresh s]); simpl; trace_simpl;
        try reflexivity; try lia.
      intros c Hc. apply list_elem_of_singleton in Hc as ->. lia. }
  unfold contexts_ok. intros (H1 & H2 & H3 & H4 & H5 & H6).
  destruct (handleConnect_begin_contexts env key s Hk Hi Ho)
    as (s1 & E & B1 & B2 & B3 & B4 & _ & B6 & _).
  rewrite E. cbn [state_of]. rewrite B1, B2, B3, B4, B6.
  assert (F1 : fresh s ∉ created (trace s)) by (intros Hin; apply H3 in Hin; lia).
  assert (F2 : S (fresh s) ∉ created (trace s)) by (intros Hin; apply H3 in Hin; lia).
  split; [exact H1|]. split; [|split; [|split; [|split]]].
  - intros c Hc. apply elem_of_app. left. now apply H2.
  - intros c Hc. apply elem_of_app in Hc as [Hc|Hc]; [apply H3 in Hc; lia|].
    apply elem_of_cons in Hc as [->|Hc]; [lia|].
    apply list_elem_of_singleton in Hc as ->. lia.
  - intros c [= <-]. split.
    + apply elem_of_app. right. apply elem_of_cons. now left.
    + intros Hin. now apply F1, H2.
  - intros c [= <-]. split.
    + apply elem_of_app. right. apply elem_of_cons. right.
      now apply list_elem_of_singleton.
    + intros Hin. now apply F2, H2.
  - intros c c' [= <-] [= <-]. lia.
Qed.

Lemma handleConnect_resume_contexts_ok (k : Connecting) (s : App) :
  contexts_ok s → contexts_ok (handleConnect_resume k s).
Proof.
  destruct (handleConnect_resume_contexts k s) as (R1 & R2 & R3 & R4 & _ & R6).
  apply (contexts_ok_grow _ _ []); try assumption.
  - now rewrite app_nil_r.
  - intros c Hc. now apply elem_of_nil in Hc.
Qed.

Lemma click_begin_contexts_ok (env : Env) (s : App) :
  contexts_ok s → contexts_ok (state_of (click_begin env s)).
Proof.
  unfold click_begin, toggleConnection_begin.
  destruct (buttonDisabled s); [auto|].
  destruct (_ || _);
    [apply handleDisconnect_contexts_ok|apply handleConnect_begin_contexts_ok].
Qed.

Lemma step_contexts_ok (e : Event) (σ : Sys) :
  contexts_ok (component σ) → contexts_ok (component (step e σ)).
Proof.
  destruct σ as [s l cs]. destruct e as [env|c|now m|i|x| | | |j];
    cbn [step component awaiting connecting].
  - rewrite settle_connect_component. apply click_begin_contexts_ok.
  - unfold contexts_ok, onopen. simpl. trace_simpl. tauto.
  - rewrite settle_component. apply contexts_ok_untouched, onmessage_begin_untouched.
  - destruct (l !! i) as [k|]; [|auto].
    rewrite settle_component. apply contexts_ok_untouched, onmessage_resume_untouched.
  - apply contexts_ok_untouched, source_ended_untouched.
  - apply handleDisconnect_contexts_ok.
  - unfold onerror. intros H. apply handleDisconnect_contexts_ok.
    revert H. apply contexts_ok_untouched. unfold lifecycle_untouched. simpl.
    repeat split; lia.
  - apply handleDisconnect_contexts_ok.
  - destruct (cs !! j) as [k|]; [|auto]. apply handleConnect_resume_contexts_ok.
Qed.

(** *** Bookkeeping of buffer sources *)

Lemma sources_ok_frame (s s' : App) :
  sourcesRef s' = sourcesRef s →
  started (trace s') = started (trace s) →
  stopped (trace s') = stopped (trace s) →
  (fresh s ≤ fresh s')%nat →
  sources_ok s → sources_ok s'.
Proof.
  unfold sources_ok. intros -> -> -> Hf (H1 & H2 & H3 & H4 & H5).
  repeat split; auto; try (now apply H3).
  intros x Hx. specialize (H5 x Hx). lia.
Qed.

Lemma sources_ok_untouched (s s' : App) :
  playback_untouched s s' → sources_ok s → sources_ok s'.
Proof.
  intros (_ & E2 & E3 & E4 & _ & E6 & _). now apply sources_ok_frame.
Qed.

Lemma handle_interrupted_sources_ok (s : App) :
  sources_ok s → sources_ok (handle_interrupted s).
Proof.
  rewrite handle_interrupted_spec. unfold sources_ok. simpl.
  intros (H1 & H2 & H3 & H4 & H5).
  destruct (observations_map_SourceStop (sourcesRef s)) as (_ & _ & _ & E).
  rewrite started_app, stopped_app, stopped_map_SourceStop, E, app_nil_r.
  split; [constructor|]. split; [|split; [|split; [|exact H5]]].
  - apply NoDup_app. split; [exact H2|]. split; [|exact H1].
    intros x Hx Hin. now apply (H3 x Hin).
  - intros x Hx. now apply elem_of_nil in Hx.
  - intros x Hx. apply elem_of_app in Hx as [Hx|Hx]; [now apply H4|now apply H3].
Qed.

Lemma onmessage_rest_sources_ok (m : LiveServerMessage) (s : App) :
  sources_ok s → sources_ok (state_of (onmessage_rest (K:=Suspended) m s)).
Proof.
  intros H. unfold onmessage_rest.
  assert (H' : sources_ok (if interrupted m then handle_interrupted s else s))
    by (destruct (interrupted m); [now apply handle_interrupted_sources_ok|exact H]).
  destruct (toolCall m) as [fcs|]; [|exact H'].
  match goal with |- context [for_functionCalls fcs ?x] =>
    destruct (for_functionCalls_untouched fcs x) as (_ & P & _) end.
  exact (sources_ok_untouched _ _ P H').
Qed.

Lemma onmessage_begin_sources_ok (now : Q) (m : LiveServerMessage) (s : App) :
  sources_ok s → sources_ok (state_of (onmessage_begin now m s)).
Proof.
  intros H. unfold onmessage_begin.
  destruct (truthy (inlineData m)) as [data|]; [|now apply onmessage_rest_sources_ok].
  assert (H' : sources_ok (setIsSpeaking true s)) by exact H.
  simpl. destruct (outputAudioContextRef s); [|now apply onmessage_rest_sources_ok].
  destruct (outputNodeRef s); [|now apply onmessage_rest_sources_ok].
  exact H.
Qed.

Lemma onmessage_resume_sources_ok (k : Suspended) (s : App) :
  sources_ok s → sources_ok (state_of (onmessage_resume k s)).
Proof.
  intros H. unfold onmessage_resume.
  destruct (decodeAudioData (k_data k)) as [d|]; [|exact H].
  simpl. apply onmessage_rest_sources_ok.
  destruct H as (H1 & H2 & H3 & H4 & H5). unfold sources_ok. simpl. trace_simpl.
  assert (F1 : fresh s ∉ started (trace s)) by (intros Hin; apply H5 in Hin; lia).
  assert (F2 : fresh s ∉ sourcesRef s) by (intros Hin; now apply F1, H3).
  assert (F3 : fresh s ∉ stopped (trace s)) by (intros Hin; now apply F1, H4).
  unfold Set_add. rewrite decide_False by exact F2.
  split; [|split; [exact H2|split; [|split]]].
  - apply NoDup_app. split; [exact H1|]. split.
    + intros x Hx Hin. apply list_elem_of_singleton in Hin as ->. contradiction.
    + repeat constructor. apply not_elem_of_nil.
  - intros x Hx. apply elem_of_app in Hx as [Hx|Hx].
    + destruct (H3 x Hx) as [A B]. split; [apply elem_of_app; now left|exact B].
    + apply list_elem_of_singleton in Hx as ->.
      split; [apply elem_of_app; right; now apply list_elem_of_singleton|exact F3].
  - intros x Hx. apply elem_of_app. left. now apply H4.
  - intros x Hx. apply elem_of_app in Hx as [Hx|Hx]; [apply H5 in Hx; lia|].
    apply list_elem_of_singleton in Hx as ->. lia.
Qed.

Lemma source_ended_sources_ok (x : handle) (s : App) :
  sources_ok s → sources_ok (source_ended x s).
Proof.
  intros (H1 & H2 & H3 & H4 & H5).
  assert (H : sources_ok (setSourcesRef (Set_delete x (sourcesRef s)) s)).
  { unfold sources_ok, Set_delete. simpl.
    split; [now apply NoDup_filter|]. split; [exact H2|]. split; [|now split].
    intros y Hy. apply list_elem_of_filter in Hy as [_ Hy]. now apply H3. }
  unfold source_ended. case_decide; exact H.
Qed.

Lemma step_sources_ok (e : Event) (σ : Sys) :
  sources_ok (component σ) → sources_ok (component (step e σ)).
Proof.
  destruct σ as [s l cs]. destruct e as [env|c|now m|i|x| | | |j];
    cbn [step component awaiting connecting].
  - rewrite settle_connect_component.
    apply sources_ok_untouched, click_begin_untouched.
  - apply sources_ok_untouched, onopen_untouched.
  - rewrite settle_component. apply onmessage_begin_sources_ok.
  - destruct (l !! i) as [k|]; [|auto].
    rewrite settle_component. apply onmessage_resume_sources_ok.
  - apply source_ended_sources_ok.
  - apply sources_ok_untouched, handleDisconnect_untouched.
  - apply sources_ok_untouched, onerror_untouched.
  - apply sources_ok_untouched, handleDisconnect_untouched.
  - destruct (cs !! j) as [k|]; [|auto].
    apply sources_ok_untouched, handleConnect_resume_untouched.
Qed.

(** *** Further properties of the reactor *)

Lemma run_cons (e : Event) (es : list Event) (σ : Sys) :
  run (e :: es) σ = run es (step e σ).
Proof. reflexivity. Qed.

(** X1. Along any sequence of events the booking list only grows at its end
    (disconnecting, reconnecting and errors included), and every record
    appended is matched by one success response for [book_site_visit]; no
    other tool response is ever sent. *)
Theorem bookings_append_only_and_answered (es : list Event) (σ : Sys) :
  bookings_answered (component σ) (component (run es σ)).
Proof.
  revert σ. induction es as [|e es IH]; intros σ.
  - apply bookings_answered_refl.
  - rewrite run_cons.
    exact (bookings_answered_trans _ _ _ (step_bookings e σ) (IH (step e σ))).
Qed.

(** X2. No message, whatever it carries and however its handler ends
    (return, throw at the decode or at a tool call), changes the connection
    state, the session or audio refs, or acquires or closes anything. *)
Theorem messages_leave_the_lifecycle_alone
    (now : Q) (m : LiveServerMessage) (k : Suspended) (s : App) :
  lifecycle_untouched s (state_of (onmessage now m s)) ∧
  lifecycle_untouched s (state_of (onmessage_begin now m s)) ∧
  lifecycle_untouched s (state_of (onmessage_resume k s)).
Proof.
  split; [apply onmessage_untouched|].
  split; [apply onmessage_begin_untouched|apply onmessage_resume_untouched].
Qed.

(** X3. The bookkeeping of audio contexts is kept by every event: from a
    state where it holds, after any sequence of events no context has been
    closed twice, only constructed contexts have been closed, and the
    contexts still referenced are constructed, open and distinct. *)
Theorem contexts_never_closed_twice (es : list Event) (σ : Sys) :
  contexts_ok (component σ) →
  contexts_ok (component (run es σ)) ∧
  NoDup (closes (trace (component (run es σ)))).
Proof.
  intros H. assert (H' : contexts_ok (component (run es σ))).
  { revert σ H. induction es as [|e es IH]; intros σ H; [exact H|].
    rewrite run_cons. apply IH, step_contexts_ok, H. }
  split; [exact H'|apply H'].
Qed.

(** X4. The bookkeeping of buffer sources is kept by every event: after any
    sequence of events the active set has no duplicates and holds only
    sources that were started and not stopped (so [stop] is never called on
    a source that was not started), and no source is stopped twice. *)
Theorem sources_never_stopped_twice (es : list Event) (σ : Sys) :
  sources_ok (component σ) →
  sources_ok (component (run es σ)) ∧
  NoDup (stopped (trace (component (run es σ)))).
Proof.
  intros H. assert (H' : sources_ok (component (run es σ))).
  { revert σ H. induction es as [|e es IH]; intros σ H; [exact H|].
    rewrite run_cons. apply IH, step_sources_ok, H. }
  split; [exact H'|apply H'].
Qed.

(** X5. A call to [book_site_visit] without an arguments object makes the
    handler throw where it reads [args.customerName]: the calls before it
    in the same message are booked and answered, that call and all the calls
    after it are neither booked nor answered. *)
Theorem missing_arguments_abort_the_tool_loop
    (now : Q) (pre post : list FunctionCall) (fc : FunctionCall) (s : App) :
  Forall (λ fc, is_book fc = true → is_Some (fc_args fc)) pre →
  is_book fc = true →
  fc_args fc = None →
  ∃ s', onmessage now (tool_call (pre ++ fc :: post)) s = Threw s' ∧
    tool_responses (trace s') =
      tool_responses (trace s) ++ map response_to (List.filter is_book pre) ∧
    bookedVisits s' = bookedVisits s ++ omap fc_args (List.filter is_book pre).
Proof.
  intros Hpre Hb Ha.
  assert (E : onmessage now (tool_call (pre ++ fc :: post)) s =
              for_functionCalls (K:=Suspended) (pre ++ fc :: post) s)
    by (apply (onmessage_rest_settled (tool_call (pre ++ fc :: post)) s)).
  rewrite E. clear E. revert s. induction Hpre as [|f pre Hf _ IH]; intros s; simpl.
  - unfold functionCall_body. fold (is_book fc). rewrite Hb, Ha.
    exists s. rewrite !app_nil_r. repeat split.
  - unfold functionCall_body at 1. fold (is_book f).
    destruct (is_book f) eqn:Ef.
    + destruct (Hf eq_refl) as [args Hargs]. rewrite Hargs.
      match goal with |- context [for_functionCalls _ ?x] =>
        destruct (IH x) as (s' & -> & Ht & Hbk) end.
      exists s'. split; [reflexivity|]. rewrite Ht, Hbk. simpl.
      rewrite tool_responses_app, Hargs. simpl.
      rewrite <- !app_assoc. split; reflexivity.
    + destruct (IH s) as (s' & -> & Ht & Hbk). exists s'. repeat split; assumption.
Qed.

(** X6. Audio that arrives after the teardown is dropped: with the output
    context gone, a chunk starts nothing and leaves the cursor, but it
    raises [isSpeaking], and it does so in state DISCONNECTED: the header
    reads "Offline" while the visualizer is active and in its speaking
    colour. *)
Theorem audio_after_disconnect_only_raises_isSpeaking
    (now : Q) (data : string) (s : App) :
  truthy (Some data) = Some data →
  onmessage now (audio_chunk data) (handleDisconnect s) =
    Returned (setIsSpeaking true (handleDisconnect s)) ∧
  trace (state_of (onmessage now (audio_chunk data) (handleDisconnect s))) =
    trace (handleDisconnect s) ∧
  connectionState (state_of (onmessage now (audio_chunk data) (handleDisconnect s))) =
    DISCONNECTED ∧
  isSpeaking (state_of (onmessage now (audio_chunk data) (handleDisconnect s))) = true ∧
  headerStatus (state_of (onmessage now (audio_chunk data) (handleDisconnect s))) =
    "Offline" ∧
  visualizerIsActive
    (state_of (onmessage now (audio_chunk data) (handleDisconnect s))) = true ∧
  visualizerColor
    (state_of (onmessage now (audio_chunk data) (handleDisconnect s))) = "#22c55e".
Proof.
  intros Ht.
  assert (H : onmessage now (audio_chunk data) (handleDisconnect s) =
              Returned (setIsSpeaking true (handleDisconnect s))).
  { unfold onmessage, onmessage_begin, audio_chunk. cbn [inlineData]. rewrite Ht.
    destruct (handleDisconnect_closes s) as (_ & _ & _ & Ho & _).
    cbn [outputAudioContextRef setIsSpeaking]. fold (outputAudioContextRef (handleDisconnect s)).
    rewrite Ho. reflexivity. }
  rewrite H. repeat split.
Qed.

(** X7. Neither the teardown nor the next connect resets the playback
    cursor or the active set: after disconnecting and connecting again
    through the button, the first chunk of the new session starts at the
    [max] of the old cursor and the clock of the new context. *)
Theorem cursor_survives_reconnect
    (env : Env) (key : string) (c : handle) (now : Q) (data : string) (d : Q)
    (s : App) :
  connectionState s = CONNECTED →
  truthy (API_KEY env) = Some key →
  inputContext env = Succeeds →
  outputContext env = Succeeds →
  userMedia env = Succeeds →
  playable (now, data, d) →
  let s1 := onopen c (toggleConnection env (toggleConnection env s)) in
  connectionState s1 = CONNECTED ∧
  nextStartTimeRef s1 = nextStartTimeRef s ∧
  sourcesRef s1 = sourcesRef s ∧
  starts (trace (state_of (onmessage now (audio_chunk data) s1))) =
    starts (trace s) ++ [Qmax (nextStartTimeRef s) now].
Proof.
  intros Hs Hk Hi Ha Hu Hp s1.
  assert (E1 : toggleConnection env s = handleDisconnect s)
    by (unfold toggleConnection; now rewrite Hs).
  assert (E2 : toggleConnection env (handleDisconnect s) =
               handleConnect env (handleDisconnect s)) by reflexivity.
  subst s1. rewrite E1, E2.
  destruct (handleDisconnect_untouched s) as [(A1 & A2 & _ & _ & A5 & _) _].
  destruct (handleConnect_untouched env (handleDisconnect s)) as [(B1 & B2 & _ & _ & B5 & _) _].
  destruct (handleConnect_contexts env key (handleDisconnect s) Hk Hi Ha) as (_ & _ & _ & Ho & _).
  assert (Hn : ∃ node, outputNodeRef (handleConnect env (handleDisconnect s)) = Some node).
  { destruct (handleConnect_begin_contexts env key (handleDisconnect s) Hk Hi Ha)
      as (s0 & E & _ & _ & _ & _ & N & _).
    unfold handleConnect. rewrite E.
    destruct (handleConnect_resume_contexts
                (mkConnecting (fresh (handleDisconnect s))
                   (S (fresh (handleDisconnect s))) (userMedia env)) s0)
      as (_ & _ & _ & _ & N' & _).
    rewrite N', N. eauto. }
  destruct Hn as [node Hn].
  split; [reflexivity|]. split; [cbn; congruence|]. split; [cbn; congruence|].
  rewrite (onmessage_playable now data d _ node (onopen c _) Ho Hn Hp).
  cbn [state_of trace onopen emit setLastLog setConnectionState nextStartTimeRef].
  trace_simpl. rewrite B5, A5, B1, A1. reflexivity.
Qed.

(** X8. A chunk that comes in the same message as the interruption flag
    is started and then stopped by the same handler: the active set ends
    empty and the cursor at 0. *)
Theorem chunk_with_interruption_is_started_and_stopped
    (now : Q) (data : string) (d : Q) (ctx node : handle) (s : App) :
  outputAudioContextRef s = Some ctx →
  outputNodeRef s = Some node →
  playable (now, data, d) →
  let s' := state_of (onmessage now (mkMessage (Some data) true None) s) in
  started (trace s') = started (trace s) ++ [fresh s] ∧
  stopped (trace s') = stopped (trace s) ++ Set_add (fresh s) (sourcesRef s) ∧
  sourcesRef s' = [] ∧
  nextStartTimeRef s' = 0%Q.
Proof.
  intros Hc Hn [Ht Hd] s'. cbn [fst snd] in Ht, Hd.
  destruct s; simpl in Hc, Hn; subst. subst s'.
  unfold onmessage, onmessage_begin. cbn [inlineData]. rewrite Ht. simpl.
  unfold onmessage_resume. simpl. rewrite Hd. simpl.
  rewrite stop_each_spec. simpl. trace_simpl.
  match goal with |- context [map SourceStop ?l] =>
    destruct (observations_map_SourceStop l) as (_ & _ & _ & E) end.
  rewrite E, stopped_map_SourceStop, app_nil_r. repeat split.
Qed.

Lemma onmessages_lifecycle (ms : list (Q * LiveServerMessage)) (s : App) :
  lifecycle_untouched s (onmessages ms s).
Proof.
  revert s. induction ms as [|[now m] ms IH]; intros s; simpl.
  - apply lifecycle_untouched_refl.
  - destruct (onmessage_untouched now m s) as [L _].
    exact (lifecycle_untouched_trans _ _ _ L (IH _)).
Qed.

Lemma handleDisconnect_torn_down (s : App) : torn_down (handleDisconnect s).
Proof.
  unfold handleDisconnect, torn_down.
  destruct s as [? ? ? ? [?|] [?|] [?|] ? ? ? ? ?]; repeat split.
Qed.

(** X9. What a connect attempt constructs, the next teardown closes, whether
    the teardown comes after the attempt has finished or while it is
    suspended at [getUserMedia]: once [handleConnect] has built and
    referenced its two audio contexts, [handleDisconnect] closes exactly
    these two, input first, whatever messages are handled in between, and
    leaves the component torn down. The continuation does not look at the
    state: when the teardown came first and the microphone is then granted,
    it still opens the session and references it, on a component that is
    DISCONNECTED with its contexts closed. *)
Theorem disconnect_closes_what_connect_created
    (env : Env) (key : string) (ms ms' : list (Q * LiveServerMessage)) (s : App) :
  truthy (API_KEY env) = Some key →
  inputContext env = Succeeds →
  outputContext env = Succeeds →
  let k := mkConnecting (fresh s) (S (fresh s)) (userMedia env) in
  let s1 := state_of (handleConnect_begin env s) in
  let after :=
    handleDisconnect (onmessages ms' (handleConnect_resume k (onmessages ms s1))) in
  let during := handleDisconnect (onmessages ms s1) in
  let late := handleConnect_resume k during in
  handleConnect_begin env s = Awaiting k s1 ∧
  created (trace after) = created (trace s) ++ [fresh s; S (fresh s)] ∧
  closes (trace after) = closes (trace s) ++ [fresh s; S (fresh s)] ∧
  torn_down after ∧
  created (trace during) = created (trace s) ++ [fresh s; S (fresh s)] ∧
  closes (trace during) = closes (trace s) ++ [fresh s; S (fresh s)] ∧
  torn_down during ∧
  closes (trace late) = closes (trace during) ∧
  inputAudioContextRef late = None ∧
  outputAudioContextRef late = None ∧
  match userMedia env with
  | Succeeds =>
    connectionState late = DISCONNECTED ∧
    sessionRef late = Some (fresh during) ∧
    trace late = trace during ++ [LiveConnect (fresh during)]
  | Throws message =>
    connectionState late = ERROR ∧
    sessionRef late = None ∧
    trace late = trace during
  end.
Proof.
  intros Hk Hi Ho. cbv zeta.
  destruct (handleConnect_begin_contexts env key s Hk Hi Ho)
    as (s0 & E & B1 & B2 & B3 & B4 & _).
  rewrite E. cbn [state_of].
  set (k := mkConnecting (fresh s) (S (fresh s)) (userMedia env)).
  set (during := handleDisconnect (onmessages ms s0)).
  split; [reflexivity|].
  destruct (onmessages_lifecycle ms s0) as (_ & _ & M3 & M4 & _ & _ & M7 & M8 & _).
  destruct (handleDisconnect_closes (onmessages ms s0)) as (D1 & D2 & D3 & D4 & _).
  assert (Hduring : closes (trace during) = closes (trace s) ++ [fresh s; S (fresh s)]).
  { unfold during. rewrite D1, M3, M4, M7, B1, B3, B4. reflexivity. }
  destruct (handleConnect_resume_contexts k (onmessages ms s0))
    as (R1 & R2 & R3 & R4 & _).
  destruct (onmessages_lifecycle ms' (handleConnect_resume k (onmessages ms s0)))
    as (_ & _ & N3 & N4 & _ & _ & N7 & N8 & _).
  destruct (handleDisconnect_closes
              (onmessages ms' (handleConnect_resume k (onmessages ms s0))))
    as (F1 & F2 & _).
  split; [rewrite F2, N8, R2, M8, B2; reflexivity|].
  split; [|split; [apply handleDisconnect_torn_down|]].
  { rewrite F1, N3, N4, N7, R1, R3, R4, M3, M4, M7, B1, B3, B4. reflexivity. }
  split; [unfold during; rewrite D2, M8, B2; reflexivity|].
  split; [exact Hduring|]. split; [apply handleDisconnect_torn_down|].
  destruct (handleConnect_resume_contexts k during) as (L1 & _ & L3 & L4 & _).
  split; [exact L1|].
  assert (Hd : torn_down during) by apply handleDisconnect_torn_down.
  destruct Hd as (T1 & T2 & T3 & T4).
  split; [now rewrite L3|]. split; [now rewrite L4|].
  unfold handleConnect_resume, k. cbn [c_media].
  destruct (userMedia env); simpl; repeat split; assumption.
Qed.

Lemma leaked_frame (c : handle) (s s' : App) (extra : list handle) :
  closes (trace s') = closes (trace s) →
  created (trace s') = created (trace s) ++ extra →
  inputAudioContextRef s' = inputAudioContextRef s →
  outputAudioContextRef s' = outputAudioContextRef s →
  leaked c s → leaked c s'.
Proof.
  unfold leaked. intros -> -> -> -> (H1 & H2 & H3 & H4).
  split; [apply elem_of_app; now left|]. now repeat split.
Qed.

Lemma leaked_untouched (c : handle) (s s' : App) :
  lifecycle_untouched s s' → leaked c s → leaked c s'.
Proof.
  intros (_ & _ & E3 & E4 & _ & _ & E7 & E8 & _).
  apply (leaked_frame c s s' []); try assumption. now rewrite app_nil_r.
Qed.

Lemma handleDisconnect_leaked (c : handle) (s : App) :
  leaked c s → leaked c (handleDisconnect s).
Proof.
  unfold leaked. intros (H1 & H2 & H3 & H4).
  destruct (handleDisconnect_closes s) as (-> & -> & -> & -> & _).
  split; [exact H1|]. split; [|split; discriminate].
  intros Hin. apply elem_of_app in Hin as [Hin|Hin]; [contradiction|].
  apply elem_of_app in Hin as [Hin|Hin]; apply elem_of_option_list in Hin;
    contradiction.
Qed.

Lemma handleConnect_begin_leaked (c : handle) (env : Env) (s : App) :
  contexts_ok s → leaked c s → leaked c (state_of (handleConnect_begin env s)).
Proof.
  intros Hok Hl.
  destruct (truthy (API_KEY env)) as [key|] eqn:Hk.
  2:{ unfold handleConnect_begin. rewrite Hk. revert Hl.
      apply (leaked_frame c _ _ []); simpl; trace_simpl; reflexivity. }
  destruct (inputContext env) eqn:Hi.
  2:{ unfold handleConnect_begin. rewrite Hk, Hi. revert Hl.
      apply (leaked_frame c _ _ []); simpl; trace_simpl; reflexivity. }
  destruct (outputContext env) eqn:Ho.
  2:{ unfold handleConnect_begin. rewrite Hk, Hi, Ho. revert Hl.
      apply (leaked_frame c _ _ [fresh s]); simpl; trace_simpl; reflexivity. }
  destruct Hl as (H1 & H2 & H3 & H4).
  destruct Hok as (_ & _ & K3 & _).
  destruct (handleConnect_begin_contexts env key s Hk Hi Ho)
    as (s1 & E & B1 & B2 & B3 & B4 & _).
  rewrite E. cbn [state_of]. unfold leaked. rewrite B1, B2, B3, B4.
  split; [apply elem_of_app; now left|]. split; [exact H2|].
  specialize (K3 c H1). split; intros [= E']; lia.
Qed.

Lemma handleConnect_resume_leaked (c : handle) (k : Connecting) (s : App) :
  leaked c s → leaked c (handleConnect_resume k s).
Proof.
  destruct (handleConnect_resume_contexts k s) as (R1 & R2 & R3 & R4 & _).
  apply (leaked_frame c s _ []); try assumption. now rewrite app_nil_r.
Qed.

Lemma step_leaked (c : handle) (e : Event) (σ : Sys) :
  contexts_ok (component σ) → leaked c (component σ) →
  leaked c (component (step e σ)).
Proof.
  destruct σ as [s l cs]. destruct e as [env|x|now m|i|x| | | |j];
    cbn [step component awaiting connecting]; intros Hok Hl.
  - rewrite settle_connect_component. unfold click_begin, toggleConnection_begin.
    destruct (buttonDisabled s); [exact Hl|].
    destruct (_ || _);
      [now apply handleDisconnect_leaked|now apply handleConnect_begin_leaked].
  - unfold leaked, onopen in *. simpl. trace_simpl. exact Hl.
  - rewrite settle_component.
    exact (leaked_untouched _ _ _ (proj1 (onmessage_begin_untouched now m s)) Hl).
  - destruct (l !! i) as [k|]; [|exact Hl]. rewrite settle_component.
    exact (leaked_untouched _ _ _ (proj1 (onmessage_resume_untouched k s)) Hl).
  - exact (leaked_untouched _ _ _ (proj1 (source_ended_untouched x s)) Hl).
  - now apply handleDisconnect_leaked.
  - unfold onerror. apply handleDisconnect_leaked. exact Hl.
  - now apply handleDisconnect_leaked.
  - destruct (cs !! j) as [k|]; [|exact Hl]. now apply handleConnect_resume_leaked.
Qed.

Lemma run_leaked (c : handle) (es : list Event) (σ : Sys) :
  contexts_ok (component σ) → leaked c (component σ) →
  leaked c (component (run es σ)).
Proof.
  revert σ. induction es as [|e es IH]; intros σ Hok Hl; [exact Hl|].
  rewrite run_cons. apply IH; [now apply step_contexts_ok|now apply step_leaked].
Qed.

Lemma click_begin_idle (env : Env) (s : App) :
  connectionState s = DISCONNECTED ∨ connectionState s = ERROR →
  click_begin env s = handleConnect_begin env s.
Proof.
  unfold click_begin, toggleConnection_begin, buttonDisabled.
  now intros [-> | ->].
Qed.

(** X10. The button is pressed on an idle component and the microphone is
    then refused: the attempt has built and referenced two audio contexts,
    asked for the microphone and nothing more (no session is opened), and
    its [catch] block closes nothing: the component is in ERROR with both
    contexts open and referenced. From ERROR the button connects again; as
    soon as that attempt has built its contexts the refs are overwritten,
    and the two old contexts are never closed, whatever happens afterwards. *)
Theorem contexts_leak_when_retrying_after_failure
    (env1 env2 : Env) (key1 key2 message : string) (es : list Event)
    (l : list Suspended) (cs : list Connecting) (s : App) :
  contexts_ok s →
  connectionState s = DISCONNECTED ∨ connectionState s = ERROR →
  truthy (API_KEY env1) = Some key1 →
  inputContext env1 = Succeeds →
  outputContext env1 = Succeeds →
  userMedia env1 = Throws message →
  truthy (API_KEY env2) = Some key2 →
  inputContext env2 = Succeeds →
  outputContext env2 = Succeeds →
  let σ1 := run [Click env1; MediaSettled (length cs)] (mkSys s l cs) in
  let σ3 := run es (step (Click env2) σ1) in
  connectionState (component σ1) = ERROR ∧
  lastLog (component σ1) = "Failed to connect: " +:+ message ∧
  sessionRef (component σ1) = sessionRef s ∧
  trace (component σ1) = trace s ++
    [NewGoogleGenAI; NewAudioContext (fresh s) 16000;
     NewAudioContext (S (fresh s)) 24000;
     CreateGain (S (fresh s)) (S (S (fresh s))); GetUserMedia] ∧
  inputAudioContextRef (component σ1) = Some (fresh s) ∧
  outputAudioContextRef (component σ1) = Some (S (fresh s)) ∧
  fresh s ∈ created (trace (component σ3)) ∧
  S (fresh s) ∈ created (trace (component σ3)) ∧
  (fresh s ∉ closes (trace (component σ3))) ∧
  S (fresh s) ∉ closes (trace (component σ3)).
Proof.
  intros Hok Hidle Hk1 Hi1 Ho1 Hu1 Hk2 Hi2 Ho2 σ1 σ3.
  destruct (handleConnect_begin_contexts env1 key1 s Hk1 Hi1 Ho1)
    as (s1 & E1 & B1 & B2 & B3 & B4 & B5 & B6 & B7 & B8 & B9).
  assert (Eσ1 : σ1 = mkSys (connect_failed message s1) l cs).
  { unfold σ1, run. cbn [fold_left step component awaiting connecting].
    rewrite (click_begin_idle env1 s Hidle), E1.
    cbn [settle_connect component awaiting connecting].
    rewrite list_lookup_middle by reflexivity.
    rewrite (delete_middle cs []), app_nil_r.
    unfold handleConnect_resume. cbn [c_media]. now rewrite Hu1. }
  assert (Hok1 : contexts_ok (connect_failed message s1)).
  { pose proof (handleConnect_begin_contexts_ok env1 s Hok) as H.
    rewrite E1 in H. cbn [state_of] in H. exact H. }
  subst σ3. rewrite Eσ1. cbn [component].
  split; [reflexivity|]. split; [reflexivity|].
  split; [exact B7|]. split; [exact B9|]. split; [exact B3|]. split; [exact B4|].
  set (s2 := connect_failed message s1) in *.
  assert (Hs2 : connectionState s2 = ERROR) by reflexivity.
  destruct (handleConnect_begin_contexts env2 key2 s2 Hk2 Hi2 Ho2)
    as (s3 & E3 & D1 & D2 & D3 & D4 & _).
  assert (Eσ2 : step (Click env2) (mkSys s2 l cs) =
                mkSys s3 l (cs ++ [mkConnecting (fresh s2) (S (fresh s2)) (userMedia env2)])).
  { cbn [step component awaiting connecting].
    rewrite (click_begin_idle env2 s2 (or_intror Hs2)), E3. reflexivity. }
  rewrite Eσ2.
  assert (Hok3 : contexts_ok s3).
  { pose proof (handleConnect_begin_contexts_ok env2 s2 Hok1) as H.
    rewrite E3 in H. exact H. }
  assert (Hf : fresh s2 = S (S (S (fresh s)))) by exact B6.
  destruct Hok as (_ & K2 & K3 & _).
  assert (F1 : fresh s ∉ closes (trace s))
    by (intros Hin; apply K2, K3 in Hin; lia).
  assert (F2 : S (fresh s) ∉ closes (trace s))
    by (intros Hin; apply K2, K3 in Hin; lia).
  assert (C2 : created (trace s2) = created (trace s) ++ [fresh s; S (fresh s)])
    by exact B2.
  assert (C1 : closes (trace s2) = closes (trace s)) by exact B1.
  assert (L1 : leaked (fresh s) s3).
  { unfold leaked. rewrite D1, D2, D3, D4, C1, C2, Hf.
    split; [apply elem_of_app; left; apply elem_of_app; right; apply elem_of_cons; now left|].
    split; [exact F1|]. split; intros [= E]; lia. }
  assert (L2 : leaked (S (fresh s)) s3).
  { unfold leaked. rewrite D1, D2, D3, D4, C1, C2, Hf.
    split; [apply elem_of_app; left; apply elem_of_app; right;
            apply elem_of_cons; right; now apply list_elem_of_singleton|].
    split; [exact F2|]. split; intros [= E]; lia. }
  match goal with |- context [run es ?σ] =>
    destruct (run_leaked (fresh s) es σ Hok3 L1) as (R1 & R2 & _);
    destruct (run_leaked (S (fresh s)) es σ Hok3 L2) as (R3 & R4 & _) end.
  repeat split; assumption.
Qed.

(** X17. When the first [new AudioContext] succeeds and the second throws
    (lines 83-84), the [catch] block runs before any ref is assigned: the
    component is in ERROR, the context that was built is referenced nowhere,
    and it is never closed, whatever happens afterwards. *)
Theorem context_orphaned_when_second_constructor_throws
    (env : Env) (key message : string) (es : list Event)
    (l : list Suspended) (cs : list Connecting) (s : App) :
  contexts_ok s →
  connectionState s = DISCONNECTED ∨ connectionState s = ERROR →
  truthy (API_KEY env) = Some key →
  inputContext env = Succeeds →
  outputContext env = Throws message →
  let σ1 := step (Click env) (mkSys s l cs) in
  let σ2 := run es σ1 in
  connectionState (component σ1) = ERROR ∧
  lastLog (component σ1) = "Failed to connect: " +:+ message ∧
  trace (component σ1) =
    trace s ++ [NewGoogleGenAI; NewAudioContext (fresh s) 16000] ∧
  inputAudioContextRef (component σ1) = inputAudioContextRef s ∧
  outputAudioContextRef (component σ1) = outputAudioContextRef s ∧
  connecting σ1 = cs ∧
  fresh s ∈ created (trace (component σ2)) ∧
  fresh s ∉ closes (trace (component σ2)).
Proof.
  intros Hok Hidle Hk Hi Ho σ1 σ2.
  assert (E : handleConnect_begin env s =
              Returned (connect_failed message
                (emit (NewAudioContext (fresh s) 16000)
                  (snd (alloc (emit NewGoogleGenAI
                    (setLastLog "Connecting to Gemini..."
                      (setConnectionState CONNECTING s)))))))).
  { unfold handleConnect_begin. now rewrite Hk, Hi, Ho. }
  assert (Eσ1 : σ1 = mkSys (state_of (handleConnect_begin env s)) l cs).
  { unfold σ1. cbn [step component awaiting connecting].
    rewrite (click_begin_idle env s Hidle), E. reflexivity. }
  assert (Hok1 : contexts_ok (state_of (handleConnect_begin env s)))
    by now apply handleConnect_begin_contexts_ok.
  subst σ2. rewrite Eσ1. cbn [component connecting].
  rewrite E in *. cbn [state_of] in *.
  split; [reflexivity|]. split; [reflexivity|].
  split; [simpl; now rewrite <- app_assoc|].
  split; [reflexivity|]. split; [reflexivity|]. split; [reflexivity|].
  match goal with |- context [mkSys ?x l cs] => set (s1 := x) in * end.
  assert (L : leaked (fresh s) s1).
  { destruct Hok as (_ & K2 & K3 & K4 & K5 & _).
    unfold leaked, s1. simpl. trace_simpl.
    split; [apply elem_of_app; right; now apply list_elem_of_singleton|].
    split; [intros Hin; apply K2, K3 in Hin; lia|].
    split; intros Hr.
    - destruct (K4 _ Hr) as [Hc _]. apply K3 in Hc. lia.
    - destruct (K5 _ Hr) as [Hc _]. apply K3 in Hc. lia. }
  destruct (run_leaked (fresh s) es (mkSys s1 l cs) Hok1 L) as (R1 & R2 & _).
  split; assumption.
Qed.

(** *** Reserved slots never overlap *)

Lemma fits_weaken (c0 c c' : Q) (slots : list (Q * Q)) :
  (c0 <= c)%Q → fits c slots c' → fits c0 slots c'.
Proof.
  destruct slots as [|[t d] rest]; simpl.
  - intros H1 H2. exact (Qle_trans _ _ _ H1 H2).
  - intros H1 [H2 H3]. split; [exact (Qle_trans _ _ _ H1 H2)|exact H3].
Qed.

Lemma fits_app (c c1 c2 : Q) (s1 s2 : list (Q * Q)) :
  fits c s1 c1 → fits c1 s2 c2 → fits c (s1 ++ s2) c2.
Proof.
  revert c. induction s1 as [|[t d] s1 IH]; intros c; simpl.
  - apply fits_weaken.
  - intros [H1 H2] H3. split; [exact H1|now apply IH].
Qed.

Lemma reserves_without_overlap_trans (s1 s2 s3 : App) :
  reserves_without_overlap s1 s2 → reserves_without_overlap s2 s3 →
  reserves_without_overlap s1 s3.
Proof.
  intros (sl1 & da1 & A1 & A2 & A3 & A4) (sl2 & da2 & B1 & B2 & B3 & B4).
  exists (sl1 ++ sl2), (da1 ++ da2).
  rewrite B1, B2, A1, A2, map_app, <- !app_assoc.
  split; [reflexivity|]. split; [reflexivity|].
  split; [now apply Forall2_app|exact (fits_app _ _ _ _ _ A4 B4)].
Qed.

Lemma reserves_without_overlap_same (s s' : App) :
  starts (trace s') = starts (trace s) →
  scheduled (trace s') = scheduled (trace s) →
  (nextStartTimeRef s <= nextStartTimeRef s')%Q →
  reserves_without_overlap s s'.
Proof.
  intros E1 E2 E3. exists [], []. simpl. rewrite !app_nil_r.
  split; [exact E1|]. split; [exact E2|]. split; [constructor|exact E3].
Qed.

Lemma playback_untouched_reserves (s s' : App) :
  playback_untouched s s' → reserves_without_overlap s s'.
Proof.
  intros (E1 & _ & _ & _ & E5 & _ & E7).
  apply reserves_without_overlap_same; [exact E5|exact E7|].
  rewrite E1. apply Qle_refl.
Qed.

Lemma onmessage_rest_reserves (m : LiveServerMessage) (s : App) :
  interrupted m = false →
  reserves_without_overlap s (state_of (onmessage_rest (K:=Suspended) m s)).
Proof.
  intros Hi. unfold onmessage_rest. rewrite Hi.
  destruct (toolCall m) as [fcs|].
  - apply playback_untouched_reserves, for_functionCalls_untouched.
  - apply playback_untouched_reserves, playback_untouched_refl.
Qed.

Lemma step_reserves (e : Event) (σ : Sys) :
  calm e →
  Forall (λ k, interrupted (k_message k) = false) (awaiting σ) →
  Forall (λ k, interrupted (k_message k) = false) (awaiting (step e σ)) ∧
  reserves_without_overlap (component σ) (component (step e σ)).
Proof.
  destruct σ as [s l cs]. destruct e as [env|c|now m|i|x| | | |j];
    cbn [step component awaiting connecting calm]; intros Hc Hl.
  - rewrite settle_connect_component. split.
    + destruct (click_begin env s); exact Hl.
    + apply playback_untouched_reserves, click_begin_untouched.
  - split; [exact Hl|apply playback_untouched_reserves, onopen_untouched].
  - unfold onmessage_begin.
    assert (R : ∀ s0, reserves_without_overlap s s0 →
              Forall (λ k, interrupted (k_message k) = false)
                (awaiting (settle (onmessage_rest m s0) l cs)) ∧
              reserves_without_overlap s
                (component (settle (onmessage_rest m s0) l cs))).
    { intros s0 H0. rewrite settle_component.
      split; [|exact (reserves_without_overlap_trans _ _ _ H0 (onmessage_rest_reserves m s0 Hc))].
      destruct (onmessage_rest_cases m s0) as [[s' E]|[s' E]]; rewrite E; exact Hl. }
    assert (H1 : reserves_without_overlap s (setIsSpeaking true s))
      by (apply reserves_without_overlap_same; [reflexivity|reflexivity|apply Qle_refl]).
    destruct (truthy (inlineData m)) as [data|];
      [|apply R, playback_untouched_reserves, playback_untouched_refl].
    cbn [outputAudioContextRef outputNodeRef setIsSpeaking].
    destruct (outputAudioContextRef s); [|exact (R _ H1)].
    destruct (outputNodeRef s); [|exact (R _ H1)].
    cbn [settle awaiting component]. split.
    + apply Forall_app. split; [exact Hl|]. constructor; [exact Hc|constructor].
    + apply reserves_without_overlap_same; [reflexivity|reflexivity|].
      simpl. apply Q.le_max_l.
  - destruct (l !! i) as [k|] eqn:E.
    2:{ split; [exact Hl|apply playback_untouched_reserves, playback_untouched_refl]. }
    assert (Hk : interrupted (k_message k) = false)
      by (exact (proj1 (Forall_lookup _ _) Hl i k E)).
    assert (Hl' : Forall (λ k, interrupted (k_message k) = false) (delete i l))
      by (now apply Forall_delete).
    unfold onmessage_resume. destruct (decodeAudioData (k_data k)) as [d|] eqn:Hd.
    2:{ cbn [settle awaiting component].
        split; [exact Hl'|apply playback_untouched_reserves, playback_untouched_refl]. }
    simpl.
    match goal with |- context [onmessage_rest _ ?x] => set (s1 := x) end.
    rewrite settle_component. split.
    + destruct (onmessage_rest_cases (k_message k) s1) as [[s' E']|[s' E']];
        rewrite E'; exact Hl'.
    + apply (reserves_without_overlap_trans _ s1);
        [|exact (onmessage_rest_reserves _ s1 Hk)].
      exists [(nextStartTimeRef s, d)], [k_data k]. unfold s1. simpl. trace_simpl.
      split; [reflexivity|]. split; [reflexivity|].
      split; [constructor; [exact Hd|constructor]|].
      split; apply Qle_refl.
  - split; [exact Hl|].
    destruct (source_ended_cursor x s).
    unfold source_ended. case_decide;
      (apply reserves_without_overlap_same; [reflexivity|reflexivity|apply Qle_refl]).
  - split; [exact Hl|apply playback_untouched_reserves, handleDisconnect_untouched].
  - split; [exact Hl|apply playback_untouched_reserves, onerror_untouched].
  - split; [exact Hl|apply playback_untouched_reserves, handleDisconnect_untouched].
  - destruct (cs !! j) as [k|];
      [|split; [exact Hl|apply playback_untouched_reserves, playback_untouched_refl]].
    split; [exact Hl|apply playback_untouched_reserves, handleConnect_resume_untouched].
Qed.

(** X16. As long as no message carries the interruption flag, the times
    handed to [start] along any sequence of events (messages arriving,
    decodes settling in any order, clicks, closes, errors) reserve slots
    that never overlap: the [when] of every [start] call is no earlier than
    the [when] of the call before it plus the duration of that call's
    buffer (the sum the code assigns to the cursor), and the last slot ends
    by the cursor. This is about the times reserved, not about the clock:
    the handler does not read the clock when a decode settles, and a source
    started with a [when] that is already past plays at once. *)
Theorem reserved_slots_never_overlap_without_interruption
    (es : list Event) (σ : Sys) :
  Forall calm es →
  Forall (λ k, interrupted (k_message k) = false) (awaiting σ) →
  reserves_without_overlap (component σ) (component (run es σ)).
Proof.
  intros Hes. revert σ. induction Hes as [|e es He _ IH]; intros σ Hl.
  - apply playback_untouched_reserves, playback_untouched_refl.
  - rewrite run_cons. destruct (step_reserves e σ He Hl) as [Hl' Hp].
    exact (reserves_without_overlap_trans _ _ _ Hp (IH _ Hl')).
Qed.

End Playback.

(** *** Session lifecycle *)

Lemma handleDisconnect_acquisitions (s : App) :
  acquisitions (trace (handleDisconnect s)) = acquisitions (trace s).
Proof.
  unfold handleDisconnect.
  destruct s as [? ? ? ? [?|] [?|] [?|] ? ? ? ? tr]; simpl;
    rewrite ?acquisitions_app; simpl; rewrite ?app_nil_r; reflexivity.
Qed.

Lemma toggleConnection_idle (env : Env) (s : App) :
  connectionState s = DISCONNECTED ∨ connectionState s = ERROR →
  toggleConnection env s = handleConnect env s.
Proof. unfold toggleConnection. now intros [-> | ->]. Qed.

(** C5 (as the code has it). Connect is reached only by a click on the
    button. While the state is CONNECTING the button is disabled and a click
    does nothing. While it is CONNECTED the click is not rejected: it ends
    the call, that is [handleDisconnect] runs, the audio contexts referenced
    are closed, the refs are cleared and the state becomes DISCONNECTED; no
    session, audio context or capture stream is asked for. [handleConnect]
    runs only on a click in DISCONNECTED or ERROR, and only from there does
    a click leave a connect attempt pending, in state CONNECTING. *)
Theorem click_connects_only_when_idle (env : Env) (s : App) :
  (∀ k s1, click_begin env s = Awaiting k s1 →
     (connectionState s = DISCONNECTED ∨ connectionState s = ERROR) ∧
     connectionState s1 = CONNECTING) ∧
  match connectionState s with
  | CONNECTING =>
    click env s = s ∧ click_begin env s = Returned s
  | CONNECTED =>
    click env s = handleDisconnect s ∧
    click_begin env s = Returned (handleDisconnect s) ∧
    connectionState (click env s) = DISCONNECTED ∧
    closes (trace (click env s)) =
      closes (trace s) ++ option_list (inputAudioContextRef s) ++
      option_list (outputAudioContextRef s) ∧
    sessionRef (click env s) = None ∧
    inputAudioContextRef (click env s) = None ∧
    outputAudioContextRef (click env s) = None ∧
    acquisitions (trace (click env s)) = acquisitions (trace s)
  | DISCONNECTED | ERROR =>
    click env s = handleConnect env s ∧
    click_begin env s = handleConnect_begin env s
  end.
Proof.
  split.
  { intros k s1. unfold click_begin, toggleConnection_begin, buttonDisabled.
    destruct (connectionState s) eqn:E; simpl; try discriminate;
      intros H; (split; [auto|]); revert H; unfold handleConnect_begin;
      destruct (truthy (API_KEY env)); try discriminate;
      destruct (inputContext env); try discriminate;
      destruct (outputContext env); try discriminate;
      simpl; intros [= <- <-]; reflexivity. }
  unfold click, click_begin, toggleConnection, toggleConnection_begin, buttonDisabled.
  destruct (connectionState s) eqn:E; simpl; try (split; reflexivity).
  destruct (handleDisconnect_closes s) as (D1 & _ & D3 & D4 & _).
  destruct (handleDisconnect_torn_down s) as (T1 & _).
  split; [reflexivity|]. split; [reflexivity|]. split; [reflexivity|].
  split; [exact D1|]. split; [exact T1|]. split; [exact D3|]. split; [exact D4|].
  apply handleDisconnect_acquisitions.
Qed.

(** C6. [handleDisconnect] is idempotent: a second call leaves the whole
    component, the trace of calls included, as the first call left it, so
    nothing is closed twice; the state it leaves is torn down, and on any
    torn-down state it makes no call at all. *)
Theorem handleDisconnect_idempotent (s : App) :
  handleDisconnect (handleDisconnect s) = handleDisconnect s ∧
  torn_down (handleDisconnect s) ∧
  (torn_down s →
     trace (handleDisconnect s) = trace s ∧
     handleDisconnect s = setLastLog "Disconnected." (setIsSpeaking false s)).
Proof.
  split; [|split].
  - unfold handleDisconnect.
    destruct s as [? ? ? ? [?|] [?|] [?|] ? ? ? ? ?]; reflexivity.
  - unfold handleDisconnect, torn_down.
    destruct s as [? ? ? ? [?|] [?|] [?|] ? ? ? ? ?]; repeat split.
  - unfold torn_down, handleDisconnect.
    destruct s; simpl. intros (-> & -> & -> & ->). split; reflexivity.
Qed.

(** C10. When the key is absent (undefined or empty), [handleConnect],
    reached through the button from DISCONNECTED, alerts and returns: the
    component is as before but for the alert, so the state is still
    DISCONNECTED, no session, audio context or capture stream is asked for
    and no ref is assigned. *)
Theorem handleConnect_without_key (env : Env) (s : App) :
  truthy (API_KEY env) = None →
  connectionState s = DISCONNECTED →
  toggleConnection env s = handleConnect env s ∧
  handleConnect env s = emit (Alert "API Key is missing!") s ∧
  connectionState (handleConnect env s) = DISCONNECTED ∧
  acquisitions (trace (handleConnect env s)) = acquisitions (trace s) ∧
  sessionRef (handleConnect env s) = sessionRef s ∧
  inputAudioContextRef (handleConnect env s) = inputAudioContextRef s ∧
  outputAudioContextRef (handleConnect env s) = outputAudioContextRef s.
Proof.
  intros Hk Hs.
  split; [apply toggleConnection_idle; auto|].
  unfold handleConnect, handleConnect_begin. rewrite Hk. split; [reflexivity|].
  simpl. rewrite acquisitions_app. simpl. rewrite app_nil_r. now repeat split.
Qed.

(** ** The properties at sample inputs *)

Lemma sample_decode_nonnegative (data : string) (d : Q) :
  sample_decode data = Some d → (0 <= d)%Q.
Proof.
  unfold sample_decode.
  destruct (String.eqb data "AAAA"); [intros [= <-]; unfold Qle; simpl; lia|].
  destruct (String.eqb data "BBBB"); [intros [= <-]; unfold Qle; simpl; lia|].
  destruct (String.eqb data "CCCC"); [intros [= <-]; unfold Qle; simpl; lia|].
  discriminate.
Defined.

(** One message with a call to [book_site_visit] and a call to another
    tool: one response, for the first. *)
Lemma book_site_visit_calls_answered_witness :
  answered_calls sample_decode (tool_call [book_call; unknown_call]) sample_connected =
    [book_call] ∧
  tool_responses
    (trace (state_of (onmessage sample_decode 0 (tool_call [book_call; unknown_call])
                        sample_connected))) =
    tool_responses (trace sample_connected) ++
    map response_to
      (answered_calls sample_decode (tool_call [book_call; unknown_call])
         sample_connected).
Proof.
  split; [reflexivity|].
  exact (proj1 (book_site_visit_calls_answered sample_decode 0
                  (tool_call [book_call; unknown_call]) sample_connected)).
Defined.

(** A call to a tool that is not declared is left without a response. *)
Lemma unknown_tool_call_gets_no_response :
  fc_id unknown_call = "abe" ∧
  count_responses "abe"
    (trace (state_of (onmessage sample_decode 0 (tool_call [unknown_call])
                        sample_connected))) ≠ 1%nat.
Proof. split; [reflexivity|]. vm_compute. discriminate. Qed.

(** Jane books without giving an address, between a call to another tool
    and a complete booking. *)
Lemma book_site_visit_books_any_arguments_witness :
  bookedVisits
    (state_of (onmessage sample_decode 0
                 (tool_call [unknown_call; book_call_without_address; book_call])
                 sample_connected)) =
    bookedVisits sample_connected ++ [] ++ [jane_without_address] ++ [jane] ∧
  tool_responses
    (trace (state_of (onmessage sample_decode 0
                        (tool_call [unknown_call; book_call_without_address; book_call])
                        sample_connected))) =
    tool_responses (trace sample_connected) ++ [] ++
    [(fc_id book_call_without_address, "book_site_visit", success_result)] ++
    [response_to book_call].
Proof.
  pose proof (book_site_visit_books_any_arguments sample_decode 0
                (tool_call [unknown_call; book_call_without_address; book_call])
                [unknown_call] [book_call] book_call_without_address
                jane_without_address sample_connected
                eq_refl eq_refl) as H.
  destruct H as (H1 & H2 & _).
  - constructor; [|constructor]. intros H. discriminate H.
  - reflexivity.
  - reflexivity.
  - split; [exact H1|exact H2].
Defined.

(** The call without an address is booked and answered with success. *)
Lemma booking_without_address_is_appended :
  jane_without_address !! "address" = None ∧
  bookedVisits sample_connected = [] ∧
  bookedVisits (state_of (onmessage sample_decode 0
                            (tool_call [book_call_without_address])
                            sample_connected))
    = [jane_without_address] ∧
  tool_responses (trace (state_of (onmessage sample_decode 0
                                     (tool_call [book_call_without_address])
                                     sample_connected)))
    = [("abd", "book_site_visit", "Visit successfully scheduled.")].
Proof. repeat split; reflexivity. Qed.



(** One source is playing when the interruption is handled at time 0.25. *)
Lemma interrupted_stops_all_and_zeroes_cursor_witness :
  stopped (trace (onmessages sample_decode
                    [(0%Q, audio_chunk "AAAA"); ((1 # 4)%Q, interruption)]
                    sample_connected)) = [4%nat] ∧
  sourcesRef (onmessages sample_decode
                [(0%Q, audio_chunk "AAAA"); ((1 # 4)%Q, interruption)]
                sample_connected) = [] ∧
  nextStartTimeRef (onmessages sample_decode
                      [(0%Q, audio_chunk "AAAA"); ((1 # 4)%Q, interruption)]
                      sample_connected) = 0%Q.
Proof.
  pose proof (interrupted_stops_all_and_zeroes_cursor sample_decode
                (1 # 4) interruption [] []
                (state_of (onmessage sample_decode 0 (audio_chunk "AAAA")
                             sample_connected))
                eq_refl) as H.
  destruct H as ((H1 & H2 & H3) & _).
  split; [exact H1|]. split; [exact H2|exact H3].
Defined.

(** The interruption is handled at time 0.25 and the cursor is 0, not 0.25. *)
Lemma interrupted_cursor_is_not_the_clock :
  sourcesRef (state_of (onmessage sample_decode 0 (audio_chunk "AAAA")
                          sample_connected)) = [4%nat] ∧
  ¬ (nextStartTimeRef
       (onmessages sample_decode
          [(0%Q, audio_chunk "AAAA"); ((1 # 4)%Q, interruption)]
          sample_connected) == 1 # 4)%Q.
Proof. split; [reflexivity|]. vm_compute. discriminate. Qed.

(** The button pressed while CONNECTED. *)
Lemma click_connects_only_when_idle_witness :
  click sample_env sample_connected = handleDisconnect sample_connected ∧
  connectionState (click sample_env sample_connected) = DISCONNECTED ∧
  closes (trace (click sample_env sample_connected)) =
    closes (trace sample_connected) ++ [0%nat] ++ [1%nat] ∧
  acquisitions (trace (click sample_env sample_connected)) =
    acquisitions (trace sample_connected).
Proof.
  pose proof (proj2 (click_connects_only_when_idle sample_env sample_connected)) as H.
  change (connectionState sample_connected) with CONNECTED in H. cbv iota in H.
  destruct H as (H1 & _ & H2 & H3 & _ & _ & _ & H4).
  split; [exact H1|]. split; [exact H2|]. split; [exact H3|exact H4].
Defined.

(** Connecting while CONNECTED is not a no-op: the button is enabled and
    reads as the way to end the call; pressing it tears the session down and
    closes both audio contexts. *)
Lemma connect_while_connected_is_not_a_noop :
  connectionState sample_connected = CONNECTED ∧
  buttonDisabled sample_connected = false ∧
  click sample_env sample_connected ≠ sample_connected ∧
  connectionState (click sample_env sample_connected) = DISCONNECTED ∧
  sessionRef sample_connected = Some 3%nat ∧
  sessionRef (click sample_env sample_connected) = None ∧
  closes (trace sample_connected) = [] ∧
  closes (trace (click sample_env sample_connected)) = [0%nat; 1%nat].
Proof.
  split; [reflexivity|]. split; [reflexivity|].
  split; [|repeat split; reflexivity].
  intros H. apply (f_equal connectionState) in H. discriminate H.
Qed.

(** The component as first rendered is torn down. *)
Lemma handleDisconnect_idempotent_witness :
  torn_down initial ∧
  trace (handleDisconnect initial) = trace initial ∧
  handleDisconnect initial = setLastLog "Disconnected." (setIsSpeaking false initial).
Proof.
  split; [repeat split|].
  apply (handleDisconnect_idempotent initial). repeat split.
Defined.

(** A malformed payload, then a chunk of 0.3 s at time 1. *)
Lemma decode_failure_is_silent_witness :
  onmessage sample_decode (1 # 4) (audio_chunk "ZZZZ") sample_connected =
    Threw (state_of (onmessage sample_decode (1 # 4) (audio_chunk "ZZZZ")
                       sample_connected)) ∧
  lastLog (state_of (onmessage sample_decode (1 # 4) (audio_chunk "ZZZZ")
                       sample_connected)) = lastLog sample_connected ∧
  starts (trace (onmessages sample_decode
                   [((1 # 4)%Q, audio_chunk "ZZZZ"); (1%Q, audio_chunk "BBBB")]
                   sample_connected)) = starts (trace sample_connected) ++ [1%Q].
Proof.
  pose proof (decode_failure_is_silent sample_decode (1 # 4)
                (audio_chunk "ZZZZ") "ZZZZ" 1%nat 2%nat 1 "BBBB" (3 # 10)
                sample_connected eq_refl eq_refl eq_refl eq_refl
                (conj eq_refl eq_refl)) as H.
  destruct H as (H1 & H2 & _ & _ & _ & _ & H3 & _).
  split; [exact H1|]. split; [exact H2|exact H3].
Defined.

(** The decode of a payload fails and the status line is what it was. *)
Lemma decode_failure_is_not_reported :
  sample_decode "ZZZZ" = None ∧
  lastLog sample_connected = "Connected! Say hello." ∧
  onmessage sample_decode (1 # 4) (audio_chunk "ZZZZ") sample_connected =
    Threw (setNextStartTimeRef (1 # 4) (setIsSpeaking true sample_connected)) ∧
  lastLog (state_of (onmessage sample_decode (1 # 4) (audio_chunk "ZZZZ")
                       sample_connected)) = "Connected! Say hello.".
Proof. repeat split; reflexivity. Qed.



(** A chunk arrives at time 0.25 on a connected session. *)
Lemma cursor_nondecreasing_witness :
  (nextStartTimeRef sample_connected <=
   nextStartTimeRef
     (component (step sample_decode (Message (1 # 4) (audio_chunk "AAAA"))
                   (mkSys sample_connected [] []))))%Q.
Proof.
  apply (cursor_nondecreasing sample_decode
           (Message (1 # 4) (audio_chunk "AAAA")) (mkSys sample_connected [] [])).
  - exact sample_decode_nonnegative.
  - reflexivity.
Defined.

(** The button pressed on the first render with no key configured. *)
Lemma handleConnect_without_key_witness :
  toggleConnection no_key_env initial = handleConnect no_key_env initial ∧
  handleConnect no_key_env initial = emit (Alert "API Key is missing!") initial ∧
  connectionState (handleConnect no_key_env initial) = DISCONNECTED ∧
  acquisitions (trace (handleConnect no_key_env initial)) =
    acquisitions (trace initial) ∧
  sessionRef (handleConnect no_key_env initial) = sessionRef initial ∧
  inputAudioContextRef (handleConnect no_key_env initial) =
    inputAudioContextRef initial ∧
  outputAudioContextRef (handleConnect no_key_env initial) =
    outputAudioContextRef initial.
Proof.
  apply (handleConnect_without_key no_key_env initial); reflexivity.
Defined.
(** ** Further properties of the component and of the visualizer *)

(** X11. The error callback leaves the component exactly as the close
    callback does: the text it writes to the status line is overwritten by
    the teardown it then runs, so the status reads "Disconnected." *)
Theorem onerror_ends_as_onclose (s : App) :
  onerror s = onclose s ∧ lastLog (onerror s) = "Disconnected.".
Proof.
  unfold onerror, onclose, handleDisconnect.
  destruct s as [? ? ? ? [?|] [?|] [?|] ? ? ? ? ?]; split; reflexivity.
Qed.

Lemma source_ended_sourcesRef (x : handle) (s : App) :
  sourcesRef (source_ended x s) = Set_delete x (sourcesRef s) ∧
  trace (source_ended x s) = trace s ∧
  nextStartTimeRef (source_ended x s) = nextStartTimeRef s.
Proof. unfold source_ended. simpl. case_decide; repeat split. Qed.

Lemma sources_ended_snoc (l : list handle) (x : handle) (s : App) :
  sources_ended (l ++ [x]) s = source_ended x (sources_ended l s).
Proof. unfold sources_ended. now rewrite fold_left_app. Qed.

Lemma sources_ended_spec (l : list handle) (s : App) :
  (∀ y, y ∈ sourcesRef (sources_ended l s) ↔ y ∈ sourcesRef s ∧ y ∉ l) ∧
  trace (sources_ended l s) = trace s ∧
  nextStartTimeRef (sources_ended l s) = nextStartTimeRef s.
Proof.
  induction l as [|x l IH] using rev_ind.
  - split; [|split; reflexivity]. intros y. simpl. split; [|tauto].
    intros H. split; [exact H|apply not_elem_of_nil].
  - rewrite sources_ended_snoc. destruct IH as (IH1 & IH2 & IH3).
    destruct (source_ended_sourcesRef x (sources_ended l s)) as (-> & -> & ->).
    split; [|split; assumption]. intros y. unfold Set_delete.
    rewrite list_elem_of_filter, IH1, not_elem_of_app, list_elem_of_singleton.
    tauto.
Qed.

(** X12. Once the [ended] listener has fired for every source of the active
    set (in any order, stale or repeated events included), the set is empty
    and [isSpeaking] is false; the listeners start and stop nothing and do
    not move the cursor. *)
Theorem all_sources_ended_clears_speaking (l : list handle) (s : App) :
  l ≠ [] →
  (∀ x, x ∈ sourcesRef s → x ∈ l) →
  sourcesRef (sources_ended l s) = [] ∧
  isSpeaking (sources_ended l s) = false ∧
  trace (sources_ended l s) = trace s ∧
  nextStartTimeRef (sources_ended l s) = nextStartTimeRef s.
Proof.
  intros Hne Hall.
  destruct (sources_ended_spec l s) as (H1 & H2 & H3).
  assert (He : sourcesRef (sources_ended l s) = []).
  { apply elem_of_nil_inv. intros y Hy. apply H1 in Hy as [Hy Hn]. auto. }
  split; [exact He|]. split; [|split; assumption].
  destruct l as [|x l _] using rev_ind; [congruence|].
  rewrite sources_ended_snoc in *. unfold source_ended in *. simpl in *.
  case_decide as Hd; [reflexivity|].
  exfalso. apply Hd. simpl in He. now rewrite He.
Qed.

(** X13. The label of the button tells what a click does: whenever the
    button is enabled it reads "End Call" (and the header "Live") exactly
    when the click tears the session down, and "Start Consultation" (header
    "Offline") exactly when the click runs [handleConnect]. *)
Theorem button_label_matches_action (env : Env) (s : App) :
  buttonDisabled s = false →
  (buttonLabel s = "End Call" ∧ headerStatus s = "Live" ∧
   toggleConnection env s = handleDisconnect s) ∨
  (buttonLabel s = "Start Consultation" ∧ headerStatus s = "Offline" ∧
   toggleConnection env s = handleConnect env s).
Proof.
  unfold buttonDisabled, buttonLabel, headerStatus, toggleConnection.
  destruct (connectionState s); simpl; intros H; try discriminate;
    [right|left|right]; repeat split.
Qed.

Lemma animate_bars_range (isActive : bool) (random : nat → Q) (bars : list Q) :
  (∀ i, (0 <= random i)%Q ∧ (random i <= 1)%Q) →
  Forall bar_in_range bars →
  Forall bar_in_range (animate_bars isActive random bars) ∧
  length (animate_bars isActive random bars) = length bars.
Proof.
  intros Hr Hb. unfold animate_bars. destruct isActive.
  - split; [|apply length_imap]. apply Forall_lookup. intros i h'.
    rewrite list_lookup_imap. destruct (bars !! i) as [h|] eqn:E; [|discriminate].
    intros [= <-]. destruct (proj1 (Forall_lookup _ _) Hb i h E) as [H1 H2].
    destruct (Hr i) as [R1 R2]. unfold bar_in_range. split; lra.
  - split; [|apply length_map]. apply List.Forall_map.
    eapply Forall_impl; [exact Hb|]. intros h [H1 H2]. unfold bar_in_range.
    split; lra.
Qed.

Lemma bar_rects_on_canvas (bars : list Q) :
  length bars = 5%nat → Forall bar_in_range bars → Forall on_canvas (bar_rects bars).
Proof.
  intros Hl Hb. apply Forall_lookup. intros i r. unfold bar_rects.
  rewrite list_lookup_imap. destruct (bars !! i) as [h|] eqn:E; [|discriminate].
  intros [= <-]. destruct (proj1 (Forall_lookup _ _) Hb i h E) as [H1 H2].
  apply lookup_lt_Some in E. rewrite Hl in E.
  unfold on_canvas, canvas_width, canvas_height, barWidth, gap.
  do 5 (destruct i as [|i];
        [match goal with |- context [inject_Z (Z.of_nat ?k)] =>
           let v := eval vm_compute in (inject_Z (Z.of_nat k)) in
           change (inject_Z (Z.of_nat k)) with v
         end; unfold Qdiv; change (/ 2)%Q with (1 # 2)%Q; repeat split; lra|]).
  lia.
Qed.

(** X14. Within one run of the effect, whatever [Math.random] returns (in
    [0, 1]) and whether the visualizer is active or not, every frame keeps
    five bars with heights between 10 and 50, and every bar drawn lies
    entirely on the 200 by 100 canvas. *)
Theorem bars_stay_on_canvas (isActive : bool) (randoms : list (nat → Q)) :
  Forall (λ random, ∀ i, (0 <= random i)%Q ∧ (random i <= 1)%Q) randoms →
  length (animate_frames isActive randoms initial_bars) = 5%nat ∧
  Forall bar_in_range (animate_frames isActive randoms initial_bars) ∧
  Forall on_canvas (bar_rects (animate_frames isActive randoms initial_bars)).
Proof.
  intros Hr.
  assert (H : ∀ bars, length bars = 5%nat → Forall bar_in_range bars →
                length (animate_frames isActive randoms bars) = 5%nat ∧
                Forall bar_in_range (animate_frames isActive randoms bars)).
  { induction Hr as [|random randoms Hrand _ IH]; intros bars Hl Hb; [now split|].
    simpl. destruct (animate_bars_range isActive random bars Hrand Hb) as [A B].
    apply IH; [congruence|exact A]. }
  destruct (H initial_bars) as [A B]; [reflexivity| |].
  - repeat constructor; unfold Qle; simpl; lia.
  - split; [exact A|]. split; [exact B|now apply bar_rects_on_canvas].
Qed.

Lemma Forall2_map_r_inv (P : Q → Q → Prop) (f : Q → Q) (l k : list Q) :
  Forall2 P l (map f k) → Forall2 (λ x y, P x (f y)) l k.
Proof.
  revert l. induction k as [|y k IH]; intros l H; simpl in H.
  - inversion H. constructor.
  - inversion H as [|x ? l' ? Hxy Hrest]; subst. constructor; [exact Hxy|now apply IH].
Qed.

(** X15. While the visualizer is inactive every frame brings each bar a
    fifth of the way back to the baseline: after n frames a bar of height h
    stands at 10 + (4/5)^n (h - 10). Since a run of the effect starts from
    bars of height 10, an inactive visualizer shows five bars of height 10
    in every frame. *)
Theorem idle_bars_return_to_baseline (randoms : list (nat → Q)) (bars : list Q) :
  Forall2 (λ h' h, (h' == 10 + Qpow (4 # 5) (length randoms) * (h - 10))%Q)
          (animate_frames false randoms bars) bars ∧
  Forall (λ h', (h' == 10)%Q) (animate_frames false randoms initial_bars).
Proof.
  assert (H : ∀ bars,
    Forall2 (λ h' h, (h' == 10 + Qpow (4 # 5) (length randoms) * (h - 10))%Q)
            (animate_frames false randoms bars) bars).
  { induction randoms as [|random randoms IH]; intros bs; simpl.
    - induction bs as [|h bs IHb]; constructor; [ring|exact IHb].
    - specialize (IH (animate_bars false random bs)). unfold animate_bars in IH at 2.
      apply Forall2_map_r_inv in IH. eapply Forall2_impl; [exact IH|].
      intros h' h E. cbn beta in E. rewrite E. simpl. ring. }
  split; [apply H|].
  specialize (H initial_bars).
  assert (G : ∀ l k, Forall (λ h, (h == 10)%Q) k →
                Forall2 (λ h' h : Q, (h' == 10 + Qpow (4 # 5) (length randoms) * (h - 10))%Q) l k →
                Forall (λ h', (h' == 10)%Q) l).
  { intros l k Hk HF. induction HF as [|x y l k Hxy _ IH]; [constructor|].
    inversion Hk; subst. constructor; [|now apply IH].
    rewrite Hxy. match goal with Hy : (y == 10)%Q |- _ => rewrite Hy end. ring. }
  apply (G _ initial_bars); [|exact H].
  repeat constructor.
Qed.

(** ** The further properties at sample inputs *)

Lemma initial_contexts_ok : contexts_ok initial.
Proof.
  unfold contexts_ok, initial; simpl.
  split; [constructor|].
  split; [intros c Hc; now apply elem_of_nil in Hc|].
  split; [intros c Hc; now apply elem_of_nil in Hc|].
  split; [intros c Hc; discriminate|].
  split; [intros c Hc; discriminate|].
  intros c c' Hc; discriminate.
Defined.

Lemma initial_sources_ok : sources_ok initial.
Proof.
  unfold sources_ok, initial; simpl.
  split; [constructor|]. split; [constructor|].
  split; [intros x Hx; now apply elem_of_nil in Hx|].
  split; intros x Hx; now apply elem_of_nil in Hx.
Defined.

(** Connect, open, disconnect, connect again, closed by the server. *)
Lemma contexts_never_closed_twice_witness :
  NoDup (closes (trace (component
    (run sample_decode
       [Click sample_env; MediaSettled 0; Open 0; Click sample_env;
        Click sample_env; MediaSettled 0; Open 4; Close]
       (mkSys initial [] []))))).
Proof.
  exact (proj2 (contexts_never_closed_twice sample_decode
                  [Click sample_env; MediaSettled 0; Open 0; Click sample_env;
                   Click sample_env; MediaSettled 0; Open 4; Close]
                  (mkSys initial [] []) initial_contexts_ok)).
Defined.

(** Two chunks, an interruption, a third chunk, a second interruption. *)
Lemma sources_never_stopped_twice_witness :
  NoDup (stopped (trace (component
    (run sample_decode
       [Click sample_env; MediaSettled 0; Open 0;
        Message 0 (audio_chunk "AAAA"); Decoded 0;
        Message 0 (audio_chunk "BBBB"); Decoded 0;
        Message (1 # 4) interruption;
        Message (1 # 2) (audio_chunk "CCCC"); Decoded 0;
        Message 1 interruption]
       (mkSys initial [] []))))).
Proof.
  exact (proj2 (sources_never_stopped_twice sample_decode
                  [Click sample_env; MediaSettled 0; Open 0;
                   Message 0 (audio_chunk "AAAA"); Decoded 0;
                   Message 0 (audio_chunk "BBBB"); Decoded 0;
                   Message (1 # 4) interruption;
                   Message (1 # 2) (audio_chunk "CCCC"); Decoded 0;
                   Message 1 interruption]
                  (mkSys initial [] []) initial_sources_ok)).
Defined.

(** Three calls in one message, the second without an arguments object. *)
Lemma missing_arguments_abort_the_tool_loop_witness :
  ∃ s', onmessage sample_decode 0
          (tool_call ([book_call] ++
                      mkFunctionCall "abf" "book_site_visit" None ::
                      [book_call_without_address]))
          sample_connected = Threw s' ∧
    tool_responses (trace s') =
      tool_responses (trace sample_connected) ++
      map response_to (List.filter is_book [book_call]) ∧
    bookedVisits s' =
      bookedVisits sample_connected ++ omap fc_args (List.filter is_book [book_call]).
Proof.
  apply (missing_arguments_abort_the_tool_loop sample_decode 0 [book_call]
           [book_call_without_address]
           (mkFunctionCall "abf" "book_site_visit" None) sample_connected).
  - repeat constructor. intros _. eexists. reflexivity.
  - reflexivity.
  - reflexivity.
Defined.

(** A chunk arrives after the button ended the call. *)
Lemma audio_after_disconnect_only_raises_isSpeaking_witness :
  trace (state_of (onmessage sample_decode 0 (audio_chunk "AAAA")
                     (handleDisconnect sample_connected))) =
    trace (handleDisconnect sample_connected) ∧
  connectionState (state_of (onmessage sample_decode 0 (audio_chunk "AAAA")
                               (handleDisconnect sample_connected))) = DISCONNECTED ∧
  isSpeaking (state_of (onmessage sample_decode 0 (audio_chunk "AAAA")
                          (handleDisconnect sample_connected))) = true ∧
  headerStatus (state_of (onmessage sample_decode 0 (audio_chunk "AAAA")
                            (handleDisconnect sample_connected))) = "Offline" ∧
  visualizerIsActive (state_of (onmessage sample_decode 0 (audio_chunk "AAAA")
                                  (handleDisconnect sample_connected))) = true ∧
  visualizerColor (state_of (onmessage sample_decode 0 (audio_chunk "AAAA")
                               (handleDisconnect sample_connected))) = "#22c55e".
Proof.
  exact (proj2 (audio_after_disconnect_only_raises_isSpeaking sample_decode 0
                  "AAAA" sample_connected eq_refl)).
Defined.

(** The session has played 0.5 s when the call is ended and started again;
    the first chunk of the new session, handled at time 0 of the new
    context, starts at 0.5. *)
Lemma cursor_survives_reconnect_witness :
  starts (trace (state_of
    (onmessage sample_decode 0 (audio_chunk "BBBB")
       (onopen 5
          (toggleConnection sample_env
             (toggleConnection sample_env
                (state_of (onmessage sample_decode 0 (audio_chunk "AAAA")
                             sample_connected)))))))) =
  starts (trace (state_of (onmessage sample_decode 0 (audio_chunk "AAAA")
                             sample_connected))) ++
  [Qmax (nextStartTimeRef (state_of (onmessage sample_decode 0 (audio_chunk "AAAA")
                                       sample_connected))) 0].
Proof.
  pose proof (cursor_survives_reconnect sample_decode sample_env "k3y" 5 0
                "BBBB" (3 # 10)
                (state_of (onmessage sample_decode 0 (audio_chunk "AAAA")
                             sample_connected))
                eq_refl eq_refl eq_refl eq_refl eq_refl (conj eq_refl eq_refl)) as H.
  destruct H as (_ & _ & _ & H). exact H.
Defined.

(** A chunk and the interruption flag in one message. *)
Lemma chunk_with_interruption_is_started_and_stopped_witness :
  started (trace (state_of (onmessage sample_decode 0
                              (mkMessage (Some "AAAA") true None) sample_connected)))
    = started (trace sample_connected) ++ [fresh sample_connected] ∧
  stopped (trace (state_of (onmessage sample_decode 0
                              (mkMessage (Some "AAAA") true None) sample_connected)))
    = stopped (trace sample_connected) ++
      Set_add (fresh sample_connected) (sourcesRef sample_connected) ∧
  sourcesRef (state_of (onmessage sample_decode 0
                          (mkMessage (Some "AAAA") true None) sample_connected)) = [] ∧
  nextStartTimeRef (state_of (onmessage sample_decode 0
                                (mkMessage (Some "AAAA") true None) sample_connected))
    = 0%Q.
Proof.
  exact (chunk_with_interruption_is_started_and_stopped sample_decode 0 "AAAA"
           (1 # 2) 1%nat 2%nat sample_connected eq_refl eq_refl
           (conj eq_refl eq_refl)).
Defined.

(** Connect from the first render, one chunk, disconnect; and the same
    connect torn down while it waits for the microphone, which is then
    granted. *)
Lemma disconnect_closes_what_connect_created_witness :
  closes (trace (handleDisconnect
                   (onmessages sample_decode [(0%Q, audio_chunk "AAAA")]
                      (handleConnect sample_env initial)))) =
    closes (trace initial) ++ [fresh initial; S (fresh initial)] ∧
  closes (trace (handleDisconnect (state_of (handleConnect_begin sample_env initial)))) =
    closes (trace initial) ++ [fresh initial; S (fresh initial)] ∧
  outputAudioContextRef
    (handleConnect_resume (mkConnecting 0 1 Succeeds)
       (handleDisconnect (state_of (handleConnect_begin sample_env initial)))) = None.
Proof.
  pose proof (disconnect_closes_what_connect_created sample_decode sample_env
                "k3y" [] [(0%Q, audio_chunk "AAAA")] initial
                eq_refl eq_refl eq_refl) as H.
  destruct H as (_ & _ & H1 & _ & _ & H2 & _ & _ & _ & H3 & _).
  split; [exact H1|]. split; [exact H2|exact H3].
Defined.

(** The microphone is refused on the first attempt and granted on the
    second; the session is then opened and ended. *)
Lemma contexts_leak_when_retrying_after_failure_witness :
  (0%nat ∉ closes (trace (component
     (run sample_decode [MediaSettled 0; Open 3; Click sample_env]
        (step sample_decode (Click sample_env)
           (run sample_decode
              [Click (mkEnv (Some "k3y") Succeeds Succeeds (Throws "denied"));
               MediaSettled 0]
              (mkSys initial [] []))))))) ∧
  1%nat ∉ closes (trace (component
     (run sample_decode [MediaSettled 0; Open 3; Click sample_env]
        (step sample_decode (Click sample_env)
           (run sample_decode
              [Click (mkEnv (Some "k3y") Succeeds Succeeds (Throws "denied"));
               MediaSettled 0]
              (mkSys initial [] [])))))).
Proof.
  pose proof (contexts_leak_when_retrying_after_failure sample_decode
                (mkEnv (Some "k3y") Succeeds Succeeds (Throws "denied")) sample_env
                "k3y" "k3y" "denied" [MediaSettled 0; Open 3; Click sample_env]
                [] [] initial
                initial_contexts_ok (or_introl eq_refl)
                eq_refl eq_refl eq_refl eq_refl eq_refl eq_refl eq_refl) as H.
  destruct H as (_ & _ & _ & _ & _ & _ & _ & _ & H1 & H2).
  split; [exact H1|exact H2].
Defined.

(** The second constructor throws on the first attempt; the next attempt
    succeeds, the session is opened and ended. *)
Lemma context_orphaned_when_second_constructor_throws_witness :
  0%nat ∈ created (trace (component
     (run sample_decode [Click sample_env; MediaSettled 0; Open 1; Click sample_env]
        (step sample_decode
           (Click (mkEnv (Some "k3y") Succeeds (Throws "NotSupportedError") Succeeds))
           (mkSys initial [] []))))) ∧
  0%nat ∉ closes (trace (component
     (run sample_decode [Click sample_env; MediaSettled 0; Open 1; Click sample_env]
        (step sample_decode
           (Click (mkEnv (Some "k3y") Succeeds (Throws "NotSupportedError") Succeeds))
           (mkSys initial [] []))))).
Proof.
  pose proof (context_orphaned_when_second_constructor_throws sample_decode
                (mkEnv (Some "k3y") Succeeds (Throws "NotSupportedError") Succeeds)
                "k3y" "NotSupportedError"
                [Click sample_env; MediaSettled 0; Open 1; Click sample_env]
                [] [] initial
                initial_contexts_ok (or_introl eq_refl)
                eq_refl eq_refl eq_refl) as H.
  destruct H as (_ & _ & _ & _ & _ & _ & H1 & H2).
  split; [exact H1|exact H2].
Defined.

(** Two sources are active; their [ended] listeners fire in reverse order. *)
Lemma all_sources_ended_clears_speaking_witness :
  sourcesRef (onmessages sample_decode
                [(0%Q, audio_chunk "AAAA"); (0%Q, audio_chunk "BBBB")]
                sample_connected) = [4%nat; 5%nat] ∧
  sourcesRef (sources_ended [5%nat; 4%nat]
                (onmessages sample_decode
                   [(0%Q, audio_chunk "AAAA"); (0%Q, audio_chunk "BBBB")]
                   sample_connected)) = [] ∧
  isSpeaking (sources_ended [5%nat; 4%nat]
                (onmessages sample_decode
                   [(0%Q, audio_chunk "AAAA"); (0%Q, audio_chunk "BBBB")]
                   sample_connected)) = false.
Proof.
  split; [reflexivity|].
  assert (Hne : [5%nat; 4%nat] ≠ []) by discriminate.
  assert (Hall : ∀ x, x ∈ sourcesRef (onmessages sample_decode
                   [(0%Q, audio_chunk "AAAA"); (0%Q, audio_chunk "BBBB")]
                   sample_connected) → x ∈ [5%nat; 4%nat]).
  { intros x Hx. change (x ∈ [4%nat; 5%nat]) in Hx.
    apply elem_of_cons in Hx as [->|Hx].
    - apply elem_of_cons. right. apply elem_of_cons. now left.
    - apply list_elem_of_singleton in Hx as ->. apply elem_of_cons. now left. }
  destruct (all_sources_ended_clears_speaking [5%nat; 4%nat] _ Hne Hall)
    as (H1 & H2 & _).
  split; [exact H1|exact H2].
Defined.

(** The button of a connected session. *)
Lemma button_label_matches_action_witness :
  (buttonLabel sample_connected = "End Call" ∧
   headerStatus sample_connected = "Live" ∧
   toggleConnection sample_env sample_connected = handleDisconnect sample_connected) ∨
  (buttonLabel sample_connected = "Start Consultation" ∧
   headerStatus sample_connected = "Offline" ∧
   toggleConnection sample_env sample_connected =
     handleConnect sample_env sample_connected).
Proof.
  exact (button_label_matches_action sample_env sample_connected eq_refl).
Defined.

(** Two active frames, [Math.random] returning 0.5 and then 0.9 and 0. *)
Lemma bars_stay_on_canvas_witness :
  Forall on_canvas
    (bar_rects (animate_frames true
                  [λ _, (1 # 2)%Q; λ i, if Nat.even i then (9 # 10)%Q else 0%Q]
                  initial_bars)).
Proof.
  apply (bars_stay_on_canvas true
           [λ _, (1 # 2)%Q; λ i, if Nat.even i then (9 # 10)%Q else 0%Q]).
  constructor; [intros i; split; unfold Qle; simpl; lia|].
  constructor; [|constructor].
  intros i. destruct (Nat.even i); split; unfold Qle; simpl; lia.
Defined.

(** Two chunks whose decodes settle in reverse order. *)
Lemma reserved_slots_never_overlap_without_interruption_witness :
  reserves_without_overlap sample_decode sample_connected
    (component (run sample_decode
                  [Message 0 (audio_chunk "AAAA"); Message 0 (audio_chunk "BBBB");
                   Decoded 1; Decoded 0]
                  (mkSys sample_connected [] []))).
Proof.
  apply (reserved_slots_never_overlap_without_interruption sample_decode
           [Message 0 (audio_chunk "AAAA"); Message 0 (audio_chunk "BBBB");
            Decoded 1; Decoded 0]
           (mkSys sample_connected [] [])).
  - repeat constructor.
  - constructor.
Defined.
